(** * Wedding file-upload backend: path/name derivation, auth check, upload loop

    A shallow embedding of [src/utils/fileUtils.js], [src/middleware/auth.js],
    [src/routes/upload.js], [src/routes/venues.js], [src/config/supabase.js]
    and the upload middleware.

    JavaScript strings are sequences of UTF-16 code units.  A string whose
    code units are all below 256 is represented here by the Rocq [string]
    made of those code units; on that range [toLowerCase] and the regular
    expression class [\s] are given exactly as ECMAScript defines them. *)

From Stdlib Require Import Strings.String Strings.Ascii Strings.Byte List ZArith NArith Lia Bool.
From Stdlib Require Import Numbers.DecimalString.
From Stdlib Require Import Sorting.Sorted.
Import ListNotations.

Open Scope string_scope.

(** ** JavaScript string primitives *)

Module JS.

Definition code (c : ascii) : N := N_of_ascii c.

Definition inRange (lo hi : N) (c : ascii) : bool :=
  ((lo <=? code c) && (code c <=? hi))%N.

Definition isLower (c : ascii) : bool := inRange 97 122 c.   (* [a-z] *)
Definition isDigit (c : ascii) : bool := inRange 48 57 c.    (* [0-9] *)
Definition isAlnum (c : ascii) : bool := isLower c || isDigit c.
Definition isHyphen (c : ascii) : bool := (code c =? 45)%N.
Definition isSpace (c : ascii) : bool := (code c =? 32)%N.

(** The class [\s] on code units below 256: TAB, LF, VT, FF, CR, SPACE and
    NO-BREAK SPACE. *)
Definition isWhiteSpace (c : ascii) : bool :=
  inRange 9 13 c || (code c =? 32)%N || (code c =? 160)%N.

(** [String.prototype.toLowerCase] on one code unit below 256: A-Z and the
    Latin-1 capitals U+00C0..U+00DE (U+00D7 is the multiplication sign) move
    up by 32, everything else is unchanged. *)
Definition toLowerChar (c : ascii) : ascii :=
  if inRange 65 90 c || (inRange 192 222 c && negb (code c =? 215)%N)
  then ascii_of_N (code c + 32)
  else c.

Fixpoint mapStr (f : ascii -> ascii) (s : string) : string :=
  match s with
  | EmptyString => EmptyString
  | String c r => String (f c) (mapStr f r)
  end.

Fixpoint filterStr (p : ascii -> bool) (s : string) : string :=
  match s with
  | EmptyString => EmptyString
  | String c r => if p c then String c (filterStr p r) else filterStr p r
  end.

Fixpoint allStr (p : ascii -> bool) (s : string) : bool :=
  match s with
  | EmptyString => true
  | String c r => p c && allStr p r
  end.

Definition toLowerCase (s : string) : string := mapStr toLowerChar s.

(** [s.replace(/[^...]/g, '')] for a character class: the characters of the
    class [keep] stay. *)
Definition removeNotIn (keep : ascii -> bool) (s : string) : string :=
  filterStr keep s.

(** [s.replace(/X+/g, rep)] for a character class [X]: every maximal run of
    characters of [X] becomes the single character [rep].  [inRun] says that
    the character before the current one belonged to the run being replaced. *)
Fixpoint replaceRunsFrom (p : ascii -> bool) (rep : ascii) (inRun : bool)
    (s : string) : string :=
  match s with
  | EmptyString => EmptyString
  | String c r =>
      if p c
      then if inRun then replaceRunsFrom p rep true r
           else String rep (replaceRunsFrom p rep true r)
      else String c (replaceRunsFrom p rep false r)
  end.

Definition replaceRuns (p : ascii -> bool) (rep : ascii) (s : string) : string :=
  replaceRunsFrom p rep false s.

(** The two alternatives of [/^-|-$/g]: [^-] can only match at index 0 and
    [-$] only at the last index of what is left. *)
Definition removeLeadingHyphen (s : string) : string :=
  match s with
  | String c r => if isHyphen c then r else s
  | EmptyString => EmptyString
  end.

Fixpoint removeTrailingHyphen (s : string) : string :=
  match s with
  | EmptyString => EmptyString
  | String c EmptyString => if isHyphen c then EmptyString else s
  | String c r => String c (removeTrailingHyphen r)
  end.

(** [s.slice(0, n)] for a non-negative [n]. *)
Fixpoint slice0 (n : nat) (s : string) : string :=
  match n, s with
  | S k, String c r => String c (slice0 k r)
  | _, _ => EmptyString
  end.

(** [s.slice(a, b)] for [0 <= a]. *)
Fixpoint dropStr (n : nat) (s : string) : string :=
  match n, s with
  | S k, String _ r => dropStr k r
  | _, _ => s
  end.

Definition slice (a b : nat) (s : string) : string :=
  slice0 (b - a) (dropStr a s).

(** [s.startsWith(p)] *)
Fixpoint startsWith (p s : string) : bool :=
  match p, s with
  | EmptyString, _ => true
  | String a p', String b s' => Ascii.eqb a b && startsWith p' s'
  | String _ _, EmptyString => false
  end.

(** [s.includes(p)] *)
Fixpoint includes (p s : string) : bool :=
  startsWith p s ||
  match s with
  | EmptyString => false
  | String _ r => includes p r
  end.

(** JavaScript truthiness of a string. *)
Definition truthy (s : string) : bool :=
  match s with EmptyString => false | _ => true end.

End JS.

(** ** src/utils/fileUtils.js *)

Module FileUtils.
Import JS.

(** [[^a-z0-9\s-]] is removed: what stays is [a-z], [0-9], [\s] and [-]. *)
Definition venueKeep (c : ascii) : bool :=
  isLower c || isDigit c || isWhiteSpace c || isHyphen c.

Definition sanitizeVenueName (venueName : string) : string :=
  removeTrailingHyphen
    (removeLeadingHyphen
       (replaceRuns isHyphen "-"
          (replaceRuns isWhiteSpace "-"
             (removeNotIn venueKeep
                (toLowerCase venueName))))).

(** The inline expression [category.toLowerCase().replace(/[^a-z0-9]/g, '')]
    of [generateFileName] and [generateFolderPath]. *)
Definition sanitizedCategoryOf (category : string) : string :=
  removeNotIn isAlnum (toLowerCase category).

(** *** [new Date().toISOString()]

    The time value of a [Date] is represented by its UTC calendar fields
    ([month] counts from 1, as [toISOString] prints it). *)
Record Date := mkDate {
  year : Z; month : Z; day : Z;
  hours : Z; minutes : Z; seconds : Z; milliseconds : Z
}.

Definition digitChar (n : Z) : ascii := ascii_of_N (48 + Z.to_N (n mod 10)).

(** The [k] low decimal digits of [n], zero padded. *)
Fixpoint padDigits (k : nat) (n : Z) : string :=
  match k with
  | O => EmptyString
  | S k' => padDigits k' (n / 10) ++ String (digitChar n) EmptyString
  end.

(** Years 0..9999 print with four digits, the others with a sign and six
    digits; the result is [YYYY-MM-DDTHH:mm:ss.sssZ]. *)
Definition toISOString (d : Date) : string :=
  (if (0 <=? year d)%Z && (year d <=? 9999)%Z
   then padDigits 4 (year d)
   else (if (year d <? 0)%Z then "-" else "+") ++ padDigits 6 (Z.abs (year d)))
  ++ "-" ++ padDigits 2 (month d) ++ "-" ++ padDigits 2 (day d)
  ++ "T" ++ padDigits 2 (hours d) ++ ":" ++ padDigits 2 (minutes d)
  ++ ":" ++ padDigits 2 (seconds d) ++ "." ++ padDigits 3 (milliseconds d)
  ++ "Z".

(** [.replace(/[:.]/g, '-')] *)
Definition colonDotToHyphen (c : ascii) : ascii :=
  if (code c =? 58)%N || (code c =? 46)%N then "-"%char else c.

Definition timestampOf (now : Date) : string :=
  slice0 19 (mapStr colonDotToHyphen (toISOString now)).

(** *** [path.extname] (Node, POSIX flavour)

    The scan runs from the last character to the first; [i] is the index of
    the head of the reversed character list. *)
Record ExtScan := mkExtScan {
  startDot : Z; startPart : Z; endIdx : Z;
  matchedSlash : bool; preDotState : Z
}.

Fixpoint extnameScan (revChars : list ascii) (i : Z) (st : ExtScan) : ExtScan :=
  match revChars with
  | [] => st
  | c :: rest =>
      if (code c =? 47)%N then
        if negb (matchedSlash st)
        then mkExtScan (startDot st) (i + 1) (endIdx st) (matchedSlash st) (preDotState st)
        else extnameScan rest (i - 1) st
      else
        let st1 :=
          if (endIdx st =? -1)%Z
          then mkExtScan (startDot st) (startPart st) (i + 1) false (preDotState st)
          else st in
        let st2 :=
          if (code c =? 46)%N then
            if (startDot st1 =? -1)%Z
            then mkExtScan i (startPart st1) (endIdx st1) (matchedSlash st1) (preDotState st1)
            else if negb (preDotState st1 =? 1)%Z
            then mkExtScan (startDot st1) (startPart st1) (endIdx st1) (matchedSlash st1) 1
            else st1
          else if negb (startDot st1 =? -1)%Z
          then mkExtScan (startDot st1) (startPart st1) (endIdx st1) (matchedSlash st1) (-1)
          else st1 in
        extnameScan rest (i - 1) st2
  end.

Definition extname (path : string) : string :=
  let st := extnameScan (rev (list_ascii_of_string path))
              (Z.of_nat (String.length path) - 1)
              (mkExtScan (-1) 0 (-1) true 0) in
  if (startDot st =? -1)%Z
     || (endIdx st =? -1)%Z
     || (preDotState st =? 0)%Z
     || ((preDotState st =? 1)%Z
         && (startDot st =? endIdx st - 1)%Z
         && (startDot st =? startPart st + 1)%Z)
  then EmptyString
  else slice (Z.to_nat (startDot st)) (Z.to_nat (endIdx st)) path.

(** [generateFileName(venueName, originalName, category)]; the two ambient
    reads, [new Date()] and [uuidv4()], are the parameters [now] and [uuid]. *)
Definition generateFileName (venueName originalName category : string)
    (now : Date) (uuid : string) : string :=
  let sanitizedVenue := sanitizeVenueName venueName in
  let timestamp := timestampOf now in
  let extension := toLowerCase (extname originalName) in
  let uniqueId := slice0 8 uuid in
  let fileName := sanitizedVenue ++ "_" ++ timestamp ++ "_" ++ uniqueId in
  let fileName :=
    if truthy category then
      let sanitizedCategory := sanitizedCategoryOf category in
      sanitizedVenue ++ "_" ++ sanitizedCategory ++ "_" ++ timestamp ++ "_" ++ uniqueId
    else fileName in
  fileName ++ extension.

Definition generateFolderPath (venueName category : string) : string :=
  let sanitizedVenue := sanitizeVenueName venueName in
  if truthy category then
    let sanitizedCategory := sanitizedCategoryOf category in
    sanitizedVenue ++ "/" ++ sanitizedCategory
  else sanitizedVenue.

Definition getFileCategory (mimeType : string) : string :=
  if startsWith "image/" mimeType then "image"
  else if String.eqb mimeType "application/pdf"
          || includes "document" mimeType
          || includes "word" mimeType
  then "document"
  else "other".

Definition validateFileType (mimeType : string) (allowedTypes : list string) : bool :=
  existsb (String.eqb mimeType) allowedTypes.

Definition validateFileSize (fileSize maxSize : Z) : bool := (fileSize <=? maxSize)%Z.

Definition getFileExtension (filename : string) : string :=
  toLowerCase (extname filename).

Definition isImageFile (mimeType : string) : bool := startsWith "image/" mimeType.

Definition isDocumentFile (mimeType : string) : bool :=
  let documentTypes :=
    ["application/pdf";
     "application/msword";
     "application/vnd.openxmlformats-officedocument.wordprocessingml.document";
     "application/vnd.oasis.opendocument.text";
     "text/plain"] in
  existsb (String.eqb mimeType) documentTypes.

End FileUtils.

(** ** src/middleware/auth.js *)

Module Auth.
Import JS.

(** The values the token expression can take: [undefined], a string, or the
    array or object the query parser builds for [?token[]=..]. *)
Inductive Value :=
| VUndefined
| VString (s : string)
| VObject.

Definition truthyV (v : Value) : bool :=
  match v with
  | VUndefined => false
  | VString s => truthy s
  | VObject => true
  end.

(** [s.split(sep)] for a one-character separator. *)
Fixpoint split (sep : ascii) (s : string) : list string :=
  match s with
  | EmptyString => [EmptyString]
  | String c r =>
      if Ascii.eqb c sep then EmptyString :: split sep r
      else match split sep r with
           | h :: t => String c h :: t
           | [] => [String c EmptyString]
           end
  end.

(** [a[1]] *)
Definition index1 (a : list string) : Value :=
  match a with
  | _ :: x :: _ => VString x
  | _ => VUndefined
  end.

Record Request := mkRequest {
  authorization : option string;   (* req.headers['authorization'] *)
  queryToken : Value               (* req.query.token *)
}.

(** [authHeader && authHeader.split(' ')[1] || queryToken] *)
Definition tokenOf (req : Request) : Value :=
  let fromHeader :=
    match authorization req with
    | None => VUndefined
    | Some authHeader =>
        if truthy authHeader then index1 (split " " authHeader)
        else VString authHeader
    end in
  if truthyV fromHeader then fromHeader else queryToken req.

Inductive Outcome :=
| Next
| Respond (status : Z) (error message : string).

(** [accessToken] is [process.env.ACCESS_TOKEN]. *)
Definition authenticateToken (req : Request) (accessToken : option string) : Outcome :=
  let token := tokenOf req in
  if negb (truthyV token) then
    Respond 401 "Access token required" "Please provide a valid access token"
  else
    match accessToken with
    | None =>
        Respond 500 "Server configuration error" "Authentication not properly configured"
    | Some validToken =>
        if negb (truthy validToken) then
          Respond 500 "Server configuration error" "Authentication not properly configured"
        else
          match token with
          | VString t =>
              if String.eqb t validToken then Next
              else Respond 403 "Invalid access token" "The provided access token is not valid"
          | _ => Respond 403 "Invalid access token" "The provided access token is not valid"
          end
    end.

(** [optionalAuth]: the value left in [req.authenticated]; [next()] is called
    in every case. *)
Definition optionalAuth (req : Request) (accessToken : option string) : bool :=
  let token := tokenOf req in
  truthyV token
  && match token, accessToken with
     | VString t, Some v => String.eqb t v
     | _, _ => false
     end.

End Auth.

(** ** The ambient world of a request handler

    A handler reads the clock, draws identifiers and calls the remote object
    store.  The world answers the k-th read of each kind; the handler threads
    the three counters. *)

Module World.

Inductive UploadReply :=
| UploadData                         (* [{ data, error: null }] *)
| UploadError (message : string)     (* [{ data: null, error }] *)
| UploadThrown.                      (* the awaited call rejects *)

Record FileObject := mkFileObject {
  name : string;
  metadataSize : option Z;
  updated_at : option string;
  created_at : option string
}.

Inductive ListReply :=
| ListData (files : list FileObject)
| ListError (message : string)
| ListThrown.

Inductive RemoveReply :=
| RemoveData
| RemoveError (message : string)
| RemoveThrown.

Record World := mkWorld {
  clock : nat -> FileUtils.Date;                       (* k-th [new Date()] *)
  uuidv4 : nat -> string;                              (* k-th [uuidv4()] *)
  (* k-th call: bucket, path, bytes, contentType *)
  storageUpload : nat -> string -> string -> list Byte.byte -> string -> UploadReply;
  storageList : nat -> string -> string -> ListReply;       (* k-th call: bucket, prefix *)
  storageRemove : nat -> string -> list string -> RemoveReply;
  getPublicUrl : string -> string -> string            (* bucket, path *)
}.

Record Ticks := mkTicks { dates : nat; uuids : nat; calls : nat }.

Definition M (A : Type) : Type := Ticks -> A * Ticks.

Definition ret {A} (a : A) : M A := fun t => (a, t).

Definition bind {A B} (m : M A) (k : A -> M B) : M B :=
  fun t => let (a, t') := m t in k a t'.

Definition newDate (w : World) : M FileUtils.Date :=
  fun t => (clock w (dates t), mkTicks (S (dates t)) (uuids t) (calls t)).

Definition newUuid (w : World) : M string :=
  fun t => (uuidv4 w (uuids t), mkTicks (dates t) (S (uuids t)) (calls t)).

Definition upload (w : World) (bucket path : string) (bytes : list Byte.byte)
    (contentType : string) : M UploadReply :=
  fun t => (storageUpload w (calls t) bucket path bytes contentType,
            mkTicks (dates t) (uuids t) (S (calls t))).

Definition listObjects (w : World) (bucket prefix : string) : M ListReply :=
  fun t => (storageList w (calls t) bucket prefix,
            mkTicks (dates t) (uuids t) (S (calls t))).

Definition removeObjects (w : World) (bucket : string) (paths : list string) : M RemoveReply :=
  fun t => (storageRemove w (calls t) bucket paths,
            mkTicks (dates t) (uuids t) (S (calls t))).

End World.

Declare Scope world_scope.
Delimit Scope world_scope with world.
Notation "x <- m ;; k" := (World.bind m (fun x => k))
  (at level 61, m at next level, right associativity) : world_scope.

(** ** src/config/supabase.js *)

Module Config.

Record Buckets := mkBuckets { PHOTOS : string; MENUS : string; PRICING : string }.

(** [process.env.X_BUCKET || 'x'] *)
Definition orDefault (v : option string) (d : string) : string :=
  match v with
  | Some s => if JS.truthy s then s else d
  | None => d
  end.

Definition BUCKETS (photosEnv menusEnv pricingEnv : option string) : Buckets :=
  mkBuckets (orDefault photosEnv "photos")
            (orDefault menusEnv "menus")
            (orDefault pricingEnv "pricing").

(** [Object.values(BUCKETS)] and [Object.entries(BUCKETS)] *)
Definition values (b : Buckets) : list string := [PHOTOS b; MENUS b; PRICING b].

Definition entries (b : Buckets) : list (string * string) :=
  [("PHOTOS", PHOTOS b); ("MENUS", MENUS b); ("PRICING", PRICING b)].

(** One entry of [supabase.storage.listBuckets()]. *)
Record Bucket := mkBucket {
  bucketName : string; bucketId : string; bucketPublic : bool;
  bucketCreated : string; bucketUpdated : string
}.

Inductive ListBucketsReply :=
| BucketsData (buckets : list Bucket)
| BucketsError (message : string)
| BucketsThrown.

(** [validateBuckets()], given the reply to its one call of [listBuckets]. *)
Definition validateBuckets (reply : ListBucketsReply) (b : Buckets) : bool :=
  match reply with
  | BucketsThrown => false
  | BucketsError _ => false
  | BucketsData buckets =>
      let bucketNames := map bucketName buckets in
      let requiredBuckets := values b in
      (fix loop (required : list string) : bool :=
         match required with
         | [] => true
         | bucket :: rest =>
             if negb (existsb (String.eqb bucket) bucketNames) then false
             else loop rest
         end) requiredBuckets
  end.

End Config.

(** ** src/routes/upload.js *)

Module Upload.
Import JS FileUtils World Config.
Local Open Scope world_scope.

(** A file object as the multipart parser leaves it in [req.files]. *)
Record File := mkFile {
  originalname : string;
  mimetype : string;
  size : Z;
  buffer : list Byte.byte
}.

(** One entry of [uploadResults]; a key the object literal does not set is
    [None].  ([formattedSize], a display string computed in floating point,
    is left out.) *)
Record UploadResult := mkUploadResult {
  originalName : string;
  fileName : option string;
  filePath : option string;
  url : option string;
  resultSize : option Z;
  mimeType : option string;
  resultCategory : option string;
  success : bool;
  error : option string;
  uploadedAt : option string
}.

Definition failure (original message : string) : UploadResult :=
  mkUploadResult original None None None None None None false (Some message) None.

(** The body of the [for] loop: one file, one result. *)
Definition uploadOne (w : World) (bucketName venueName category : string)
    (file : File) : M UploadResult :=
  let folderPath := generateFolderPath venueName category in
  now <- newDate w ;;
  uuid <- newUuid w ;;
  let fileName := generateFileName venueName (originalname file) category now uuid in
  let filePath := folderPath ++ "/" ++ fileName in
  reply <- upload w bucketName filePath (buffer file) (mimetype file) ;;
  match reply with
  | UploadError message => ret (failure (originalname file) message)
  | UploadThrown => ret (failure (originalname file) "Unexpected upload error")
  | UploadData =>
      at_ <- newDate w ;;
      ret (mkUploadResult (originalname file) (Some fileName) (Some filePath)
             (Some (getPublicUrl w bucketName filePath))
             (Some (size file)) (Some (mimetype file))
             (Some (getFileCategory (mimetype file)))
             true None (Some (toISOString at_)))
  end.

Fixpoint uploadLoop (w : World) (bucketName venueName category : string)
    (files : list File) : M (list UploadResult) :=
  match files with
  | [] => ret []
  | file :: rest =>
      r <- uploadOne w bucketName venueName category file ;;
      rs <- uploadLoop w bucketName venueName category rest ;;
      ret (r :: rs)
  end.

(** [uploadFilesToBucket(files, bucketName, venueName, category = '')] *)
Definition uploadFilesToBucket (w : World) (files : list File)
    (bucketName venueName : string) (category : option string)
    : M (list UploadResult) :=
  let category := match category with Some c => c | None => EmptyString end in
  uploadLoop w bucketName venueName category files.

(** [req.body] when each field was sent at most once, so that it is a string
    or absent; [UploadFields] below takes the fields as the parser leaves
    them in general. *)
Record Body := mkBody { venueName : option string; category : option string }.

Inductive Response :=
| Uploaded (message : string) (uploads : list UploadResult)
           (bucket venue : string) (category : option string)
| Failed (status : Z) (error message : string).

Definition lengthText {A} (l : list A) : string :=
  NilZero.string_of_uint (Nat.to_uint (List.length l)).

Definition venueRequired : Response :=
  Failed 400 "Venue name required" "Please provide a venue name".

(** [router.post('/photos', ...)], after the middleware chain. *)
Definition postPhotos (w : World) (b : Buckets) (body : Body) (files : list File)
    : M Response :=
  match venueName body with
  | None => ret venueRequired
  | Some venue =>
      if negb (truthy venue) then ret venueRequired
      else
        uploadResults <- uploadFilesToBucket w files (PHOTOS b) venue (category body) ;;
        ret (Uploaded
               ("Successfully uploaded " ++ lengthText uploadResults
                  ++ " file(s) to photos bucket")
               uploadResults (PHOTOS b) venue
               (Some (match category body with
                      | Some c => if truthy c then c else "general"
                      | None => "general"
                      end)))
  end.

(** [router.post('/menus', ...)] and [router.post('/pricing', ...)] pass no
    category and answer without one. *)
Definition postPlain (w : World) (bucketName label : string) (body : Body)
    (files : list File) : M Response :=
  match venueName body with
  | None => ret venueRequired
  | Some venue =>
      if negb (truthy venue) then ret venueRequired
      else
        uploadResults <- uploadFilesToBucket w files bucketName venue None ;;
        ret (Uploaded
               ("Successfully uploaded " ++ lengthText uploadResults
                  ++ " file(s) to " ++ label ++ " bucket")
               uploadResults bucketName venue None)
  end.

Definition postMenus (w : World) (b : Buckets) := postPlain w (MENUS b) "menus".
Definition postPricing (w : World) (b : Buckets) := postPlain w (PRICING b) "pricing".

End Upload.

(** ** src/routes/upload.js, with the fields of [req.body] as the multipart
    parser leaves them

    A field sent once is a string; a field sent several times, or with
    brackets in its name, is an array or an object ([Auth.VObject]); a field
    not sent is [undefined].  [Upload] above is this module on string
    fields. *)

Module UploadFields.
Import JS World Config.
Local Open Scope world_scope.

Record Body := mkBody { venueName : Auth.Value; category : Auth.Value }.

Inductive Response :=
| Uploaded (message : string) (uploads : list Upload.UploadResult)
           (bucket : string) (venue : Auth.Value) (category : option Auth.Value)
| Failed (status : Z) (error message : string).

(** The body of the [for] loop.  [generateFolderPath] is the first call of
    the [try] block: on a venue name that is not a string, or a category that
    is an array or object, [toLowerCase] is not a function, and the [catch]
    records the failure before the clock is read, an identifier is drawn or
    the store is called.  An [undefined] category takes the default [''] of
    [generateFolderPath] and [generateFileName]. *)
Definition uploadOne (w : World) (bucketName : string)
    (venueName category : Auth.Value) (file : Upload.File) : M Upload.UploadResult :=
  match venueName, category with
  | Auth.VString venue, Auth.VString c => Upload.uploadOne w bucketName venue c file
  | Auth.VString venue, Auth.VUndefined =>
      Upload.uploadOne w bucketName venue EmptyString file
  | _, _ => ret (Upload.failure (Upload.originalname file) "Unexpected upload error")
  end.

Fixpoint uploadLoop (w : World) (bucketName : string)
    (venueName category : Auth.Value) (files : list Upload.File)
    : M (list Upload.UploadResult) :=
  match files with
  | [] => ret []
  | file :: rest =>
      r <- uploadOne w bucketName venueName category file ;;
      rs <- uploadLoop w bucketName venueName category rest ;;
      ret (r :: rs)
  end.

(** [uploadFilesToBucket(files, bucketName, venueName, category = '')] *)
Definition uploadFilesToBucket (w : World) (files : list Upload.File)
    (bucketName : string) (venueName category : Auth.Value)
    : M (list Upload.UploadResult) :=
  let category :=
    match category with
    | Auth.VUndefined => Auth.VString EmptyString
    | c => c
    end in
  uploadLoop w bucketName venueName category files.

Definition venueRequired : Response :=
  Failed 400 "Venue name required" "Please provide a venue name".

(** [router.post('/photos', ...)], after the middleware chain. *)
Definition postPhotos (w : World) (b : Buckets) (body : Body)
    (files : list Upload.File) : M Response :=
  if negb (Auth.truthyV (venueName body)) then ret venueRequired
  else
    uploadResults <-
      uploadFilesToBucket w files (PHOTOS b) (venueName body) (category body) ;;
    ret (Uploaded
           ("Successfully uploaded " ++ Upload.lengthText uploadResults
              ++ " file(s) to photos bucket")
           uploadResults (PHOTOS b) (venueName body)
           (Some (if Auth.truthyV (category body) then category body
                  else Auth.VString "general"))).

(** [router.post('/menus', ...)] and [router.post('/pricing', ...)] *)
Definition postPlain (w : World) (bucketName label : string) (body : Body)
    (files : list Upload.File) : M Response :=
  if negb (Auth.truthyV (venueName body)) then ret venueRequired
  else
    uploadResults <-
      uploadFilesToBucket w files bucketName (venueName body) Auth.VUndefined ;;
    ret (Uploaded
           ("Successfully uploaded " ++ Upload.lengthText uploadResults
              ++ " file(s) to " ++ label ++ " bucket")
           uploadResults bucketName (venueName body) None).

Definition postMenus (w : World) (b : Buckets) := postPlain w (MENUS b) "menus".
Definition postPricing (w : World) (b : Buckets) := postPlain w (PRICING b) "pricing".

(** A body and a response of [Upload], as values of this module. *)
Definition ofField (x : option string) : Auth.Value :=
  match x with
  | Some s => Auth.VString s
  | None => Auth.VUndefined
  end.

Definition ofBody (body : Upload.Body) : Body :=
  mkBody (ofField (Upload.venueName body)) (ofField (Upload.category body)).

Definition ofResponse (r : Upload.Response) : Response :=
  match r with
  | Upload.Uploaded message uploads bucket venue category =>
      Uploaded message uploads bucket (Auth.VString venue)
        (option_map Auth.VString category)
  | Upload.Failed status error message => Failed status error message
  end.

End UploadFields.


(** ** src/routes/venues.js *)

Module Venues.
Import JS World Config.
Local Open Scope world_scope.

Record FileInfo := mkFileInfo {
  infoName : string; infoSize : Z; lastModified : option string; infoUrl : string
}.

Inductive Response :=
| VenueList (venues : list string) (count : nat)
| VenueFiles (venue : string) (files : list (string * list FileInfo)) (totalFiles : nat)
| Deleted (message venue bucket fileName filePath : string)
| Failed (status : Z) (error message : string).

(** [venues.add(x)] on a [Set] kept in insertion order. *)
Definition setAdd (x : string) (l : list string) : list string :=
  if existsb (String.eqb x) l then l else l ++ [x].

(** [files.forEach(file => { if (file.name && !file.name.includes('.')) venues.add(file.name) })] *)
Definition addFolders (files : list FileObject) (venues : list string) : list string :=
  fold_left
    (fun acc file =>
       if truthy (name file) && negb (includes "." (name file))
       then setAdd (name file) acc else acc)
    files venues.

(** The loop over [Object.values(BUCKETS)]; [None] is an exception reaching
    the handler's [catch]. *)
Fixpoint collectVenues (w : World) (bucketNames : list string) (venues : list string)
    : M (option (list string)) :=
  match bucketNames with
  | [] => ret (Some venues)
  | bucketName :: rest =>
      reply <- listObjects w bucketName "" ;;
      match reply with
      | ListThrown => ret None
      | ListError _ => collectVenues w rest venues           (* [continue] *)
      | ListData files => collectVenues w rest (addFolders files venues)
      end
  end.

(** [Array.prototype.sort()] with the default comparison (by code units). *)
Fixpoint insertSorted (x : string) (l : list string) : list string :=
  match l with
  | [] => [x]
  | y :: r => if String.leb x y then x :: l else y :: insertSorted x r
  end.

Definition sort (l : list string) : list string := fold_right insertSorted [] l.

(** [router.get('/', ...)] *)
Definition getVenues (w : World) (b : Buckets) : M Response :=
  r <- collectVenues w (values b) [] ;;
  match r with
  | Some venues =>
      let venueList := sort venues in
      ret (VenueList venueList (List.length venueList))
  | None => ret (Failed 500 "Failed to fetch venues" "Unable to retrieve venue list")
  end.

Definition fileInfoOf (w : World) (bucketName venueName : string) (file : FileObject)
    : FileInfo :=
  mkFileInfo (name file)
    (match metadataSize file with Some n => n | None => 0%Z end)
    (match updated_at file with
     | Some u => if truthy u then Some u else created_at file
     | None => created_at file
     end)
    (getPublicUrl w bucketName (venueName ++ "/" ++ name file)).

(** The loop over [Object.entries(BUCKETS)] of [router.get('/:venueName/files')]. *)
Fixpoint collectFiles (w : World) (venueName : string) (es : list (string * string))
    (venueFiles : list (string * list FileInfo))
    : M (option (list (string * list FileInfo))) :=
  match es with
  | [] => ret (Some venueFiles)
  | (bucketKey, bucketName) :: rest =>
      reply <- listObjects w bucketName venueName ;;
      match reply with
      | ListThrown => ret None
      | ListError _ =>
          collectFiles w venueName rest (venueFiles ++ [(toLowerCase bucketKey, [])])
      | ListData files =>
          let filesWithUrls :=
            map (fileInfoOf w bucketName venueName)
              (filter (fun file => truthy (name file) && includes "." (name file)) files) in
          collectFiles w venueName rest
            (venueFiles ++ [(toLowerCase bucketKey, filesWithUrls)])
      end
  end.

Definition getVenueFiles (w : World) (b : Buckets) (venueName : string) : M Response :=
  r <- collectFiles w venueName (entries b) [] ;;
  match r with
  | Some venueFiles =>
      ret (VenueFiles venueName venueFiles
             (fold_left (fun sum fs => sum + List.length (snd fs)) venueFiles 0))
  | None =>
      ret (Failed 500 "Failed to fetch venue files" "Unable to retrieve files for this venue")
  end.

(** [router.delete('/:venueName/files/:bucket/:fileName', ...)] *)
Definition deleteFile (w : World) (b : Buckets) (venueName bucket fileName : string)
    : M Response :=
  if negb (existsb (String.eqb bucket) (values b)) then
    ret (Failed 400 "Invalid bucket" "Specified bucket does not exist")
  else
    let filePath := venueName ++ "/" ++ fileName in
    reply <- removeObjects w bucket [filePath] ;;
    match reply with
    | RemoveError _ => ret (Failed 500 "Delete failed" "Unable to delete the specified file")
    | RemoveThrown =>
        ret (Failed 500 "Delete failed" "An error occurred while deleting the file")
    | RemoveData =>
        ret (Deleted "File deleted successfully" venueName bucket fileName filePath)
    end.

End Venues.

(** ** The upload middleware (after the separator in src/server.js) *)

Module UploadMiddleware.
Import JS FileUtils.

Record AllowedTypes := mkAllowedTypes { images : list string; documents : list string }.

Definition ALLOWED_TYPES : AllowedTypes :=
  mkAllowedTypes
    ["image/jpeg"; "image/jpg"; "image/png"; "image/webp"]
    ["application/pdf";
     "application/msword";
     "application/vnd.openxmlformats-officedocument.wordprocessingml.document";
     "application/vnd.oasis.opendocument.text";
     "text/plain"].

Definition ALL_ALLOWED_TYPES : list string :=
  (images ALLOWED_TYPES ++ documents ALLOWED_TYPES)%list.

(** [parseInt(process.env.MAX_FILE_SIZE) || 10 * 1024 * 1024]; [parsed] is
    the integer [parseInt] returns, [None] for [NaN]. *)
Definition MAX_FILE_SIZE (parsed : option Z) : Z :=
  match parsed with
  | Some n => if (n =? 0)%Z then (10 * 1024 * 1024)%Z else n
  | None => (10 * 1024 * 1024)%Z
  end.

(** An error object: whether it is a [multer.MulterError], its [code] and its
    [message]. *)
Record Error := mkError { isMulterError : bool; code : option string; message : string }.

(** [fileFilter]: [None] is [cb(null, true)], [Some e] is [cb(e, false)]. *)
Definition fileFilter (file : Upload.File) : option Error :=
  if negb (validateFileType (Upload.mimetype file) ALL_ALLOWED_TYPES) then
    Some (mkError false (Some "INVALID_FILE_TYPE")
            ("File type " ++ Upload.mimetype file ++ " is not allowed"))
  else None.

Inductive Response :=
| Next
| Rejected (status : Z) (error message : string)
           (allowedTypes : option (list string)) (maxSize : option string).

Definition decimal (n : Z) : string := NilZero.string_of_int (Z.to_int n).

(** [Math.round(MAX_FILE_SIZE / (1024 * 1024))] printed in a template, for a
    limit that is a safe integer (below 2^53 in absolute value): there the
    division by a power of two is exact, rounding takes halves upwards, and
    the number prints as its decimal digits.  Beyond that range the template
    prints the nearest double, in exponent form from 1e21, which this
    definition does not follow. *)
Definition roundedMB (maxFileSize : Z) : string :=
  decimal ((2 * maxFileSize + 1024 * 1024) / (2 * (1024 * 1024)))%Z.

Definition codeIs (e : Error) (c : string) : bool :=
  match code e with
  | Some x => String.eqb x c
  | None => false
  end.

Definition handleUploadError (maxFileSize : Z) (error : Error) : Response :=
  if isMulterError error && codeIs error "LIMIT_FILE_SIZE" then
    Rejected 400 "File too large"
      ("File size exceeds the maximum limit of " ++ roundedMB maxFileSize ++ "MB")
      None None
  else if isMulterError error && codeIs error "LIMIT_FILE_COUNT" then
    Rejected 400 "Too many files" "Maximum 10 files allowed per upload" None None
  else if isMulterError error && codeIs error "LIMIT_UNEXPECTED_FILE" then
    Rejected 400 "Unexpected file field" "Please use the correct file field name"
      None None
  else if codeIs error "INVALID_FILE_TYPE" then
    Rejected 400 "Invalid file type" (message error) (Some ALL_ALLOWED_TYPES) None
  else
    Rejected 500 "Upload failed" "An error occurred during file upload" None None.

Definition quote : string := String "034"%char EmptyString.

(** The [for] loop of [validateFiles]. *)
Fixpoint validateEach (maxFileSize : Z) (files : list Upload.File) : Response :=
  match files with
  | [] => Next
  | file :: rest =>
      if negb (validateFileSize (Upload.size file) maxFileSize) then
        Rejected 400 "File too large"
          ("File " ++ quote ++ Upload.originalname file ++ quote
             ++ " exceeds the maximum size limit")
          None (Some (roundedMB maxFileSize ++ "MB"))
      else if (Upload.size file =? 0)%Z then
        Rejected 400 "Empty file"
          ("File " ++ quote ++ Upload.originalname file ++ quote ++ " is empty")
          None None
      else validateEach maxFileSize rest
  end.

(** [validateFiles]; [files] is [req.files], [None] when it is not set. *)
Definition validateFiles (maxFileSize : Z) (files : option (list Upload.File)) : Response :=
  match files with
  | None | Some [] =>
      Rejected 400 "No files provided" "Please select at least one file to upload"
        None None
  | Some files => validateEach maxFileSize files
  end.

End UploadMiddleware.

(** ** The middleware chain of an upload route

    [router.post(path, authenticateToken, upload, handleUploadError,
    validateFiles, handler)]: the multipart parser runs after the credential
    check and either fails with an error, which goes to [handleUploadError],
    or leaves the fields and files on the request, which go on to
    [validateFiles] and the handler. *)

Module Routes.
Import World.
Local Open Scope world_scope.

Inductive Parsed :=
| ParseFailed (e : UploadMiddleware.Error)
| ParseDone (body : UploadFields.Body) (files : option (list Upload.File)).

Inductive Response :=
| FromAuth (status : Z) (error message : string)
| FromMiddleware (r : UploadMiddleware.Response)
| FromHandler (r : UploadFields.Response).

Definition uploadRoute
    (handler : UploadFields.Body -> list Upload.File -> M UploadFields.Response)
    (accessToken : option string) (maxFileSize : Z)
    (req : Auth.Request) (parsed : Parsed) : M Response :=
  match Auth.authenticateToken req accessToken with
  | Auth.Respond status error message => ret (FromAuth status error message)
  | Auth.Next =>
      match parsed with
      | ParseFailed e =>
          ret (FromMiddleware (UploadMiddleware.handleUploadError maxFileSize e))
      | ParseDone body files =>
          match UploadMiddleware.validateFiles maxFileSize files with
          | UploadMiddleware.Next =>
              r <- handler body (match files with Some fs => fs | None => [] end) ;;
              ret (FromHandler r)
          | rejected => ret (FromMiddleware rejected)
          end
      end
  end.

Definition photosRoute (w : World) (b : Config.Buckets) :=
  uploadRoute (UploadFields.postPhotos w b).

Definition menusRoute (w : World) (b : Config.Buckets) :=
  uploadRoute (UploadFields.postMenus w b).

Definition pricingRoute (w : World) (b : Config.Buckets) :=
  uploadRoute (UploadFields.postPricing w b).

(** [router.delete('/:venueName/files/:bucket/:fileName', authenticateToken, ...)] *)
Definition deleteRoute (w : World) (b : Config.Buckets) (accessToken : option string)
    (req : Auth.Request) (venueName bucket fileName : string)
    : M (Auth.Outcome + Venues.Response) :=
  match Auth.authenticateToken req accessToken with
  | Auth.Next =>
      r <- Venues.deleteFile w b venueName bucket fileName ;; ret (inr r)
  | denied => ret (inl denied)
  end.

End Routes.

(** ** The specification's wording, as separate definitions *)

Module Spec.
Import JS.

(** "collapse runs of X to a single Y": a character of a run is dropped when
    another character of the run follows it, and the last one is replaced. *)
Fixpoint collapse (p : ascii -> bool) (rep : ascii) (s : string) : string :=
  match s with
  | EmptyString => EmptyString
  | String c r =>
      if p c then
        match r with
        | String c' _ => if p c' then collapse p rep r else String rep (collapse p rep r)
        | EmptyString => String rep EmptyString
        end
      else String c (collapse p rep r)
  end.

(** "trim leading/trailing hyphens": all of them. *)
Fixpoint trimLeft (s : string) : string :=
  match s with
  | String c r => if isHyphen c then trimLeft r else s
  | EmptyString => EmptyString
  end.

Fixpoint trimRight (s : string) : string :=
  match s with
  | EmptyString => EmptyString
  | String c r =>
      match trimRight r with
      | EmptyString => if isHyphen c then EmptyString else String c EmptyString
      | t => String c t
      end
  end.

(** The five steps of section 4.1, for a given reading [blank] of the blank
    characters that survive the stripping step. *)
Definition sanitizeWith (blank : ascii -> bool) (raw : string) : string :=
  trimRight
    (trimLeft
       (collapse isHyphen "-"
          (collapse isWhiteSpace "-"
             (filterStr (fun c => isLower c || isDigit c || blank c || isHyphen c)
                (toLowerCase raw))))).

(** The stripping step keeps [a-z0-9 -], the blank being the space only. *)
Definition sanitize : string -> string := sanitizeWith isSpace.

(** The stripping step keeps every white-space character. *)
Definition sanitizeWs : string -> string := sanitizeWith isWhiteSpace.

(** Section 4.2: lower-cases and strips every character not in [a-z0-9];
    an absent category yields the empty string. *)
Definition sanitizeCategory (raw : option string) : string :=
  match raw with
  | Some r => filterStr isAlnum (toLowerCase r)
  | None => EmptyString
  end.

(** Whole-string matching of the regular expressions the specification
    writes. *)
Inductive regex :=
| Class (p : ascii -> bool)
| Seq (r1 r2 : regex)
| Star (r : regex).

Definition Plus (r : regex) : regex := Seq r (Star r).

Inductive matches : regex -> string -> Prop :=
| MClass p c : p c = true -> matches (Class p) (String c EmptyString)
| MSeq r1 r2 s1 s2 : matches r1 s1 -> matches r2 s2 -> matches (Seq r1 r2) (s1 ++ s2)
| MStarNil r : matches (Star r) EmptyString
| MStarStep r s1 s2 : matches r s1 -> matches (Star r) s2 -> matches (Star r) (s1 ++ s2).

(** [^[a-z0-9]+(-[a-z0-9]+)*$] *)
Definition slugRegex : regex :=
  Seq (Plus (Class isAlnum))
      (Star (Seq (Class isHyphen) (Plus (Class isAlnum)))).

Definition hasPrefix (p s : string) : Prop := exists r, s = p ++ r.

(** An instant whose calendar fields are in range and whose year prints with
    four digits. *)
Definition validDate (d : FileUtils.Date) : bool :=
  ((0 <=? FileUtils.year d) && (FileUtils.year d <=? 9999)
   && (1 <=? FileUtils.month d) && (FileUtils.month d <=? 12)
   && (1 <=? FileUtils.day d) && (FileUtils.day d <=? 31)
   && (0 <=? FileUtils.hours d) && (FileUtils.hours d <=? 23)
   && (0 <=? FileUtils.minutes d) && (FileUtils.minutes d <=? 59)
   && (0 <=? FileUtils.seconds d) && (FileUtils.seconds d <=? 59)
   && (0 <=? FileUtils.milliseconds d) && (FileUtils.milliseconds d <=? 999))%Z.

(** Two instants in the same UTC second. *)
Definition sameSecond (a b : FileUtils.Date) : bool :=
  ((FileUtils.year a =? FileUtils.year b)
   && (FileUtils.month a =? FileUtils.month b)
   && (FileUtils.day a =? FileUtils.day b)
   && (FileUtils.hours a =? FileUtils.hours b)
   && (FileUtils.minutes a =? FileUtils.minutes b)
   && (FileUtils.seconds a =? FileUtils.seconds b))%Z.

(** The layout [YYYY-MM-DDTHH-MM-SS] of section 4.3. *)
Definition secondStamp (d : FileUtils.Date) : string :=
  FileUtils.padDigits 4 (FileUtils.year d) ++ "-"
  ++ FileUtils.padDigits 2 (FileUtils.month d) ++ "-"
  ++ FileUtils.padDigits 2 (FileUtils.day d) ++ "T"
  ++ FileUtils.padDigits 2 (FileUtils.hours d) ++ "-"
  ++ FileUtils.padDigits 2 (FileUtils.minutes d) ++ "-"
  ++ FileUtils.padDigits 2 (FileUtils.seconds d).

Definition isColonOrDot (c : ascii) : bool := (code c =? 58)%N || (code c =? 46)%N.

(** Section 7: the three client-visible errors of the credential check. *)
Definition MissingCredential : Auth.Outcome :=
  Auth.Respond 401 "Access token required" "Please provide a valid access token".

Definition ServerMisconfigured : Auth.Outcome :=
  Auth.Respond 500 "Server configuration error" "Authentication not properly configured".

Definition InvalidCredential : Auth.Outcome :=
  Auth.Respond 403 "Invalid access token" "The provided access token is not valid".

(** What follows the first space of a header value, if it has one. *)
Fixpoint afterFirstSpace (s : string) : option string :=
  match s with
  | EmptyString => None
  | String c r => if Ascii.eqb c " " then Some r else afterFirstSpace r
  end.

(** The first word of a string: what precedes its first space. *)
Fixpoint upToSpace (s : string) : string :=
  match s with
  | EmptyString => EmptyString
  | String c r => if Ascii.eqb c " " then EmptyString else String c (upToSpace r)
  end.

(** The token of a bearer-style header value, scheme then token: the word
    after the first space, when it is not empty. *)
Definition headerWord (header : string) : option string :=
  match afterFirstSpace header with
  | Some r =>
      match upToSpace r with
      | EmptyString => None
      | word => Some word
      end
  | None => None
  end.

(** The token of the query parameter, when it is sent and not empty. *)
Definition queryWord (q : Auth.Value) : option Auth.Value :=
  match q with
  | Auth.VUndefined => None
  | Auth.VString EmptyString => None
  | v => Some v
  end.

(** The token a request supplies, in the words of section 6: the header
    token when there is one, and otherwise the query parameter. *)
Definition supplied (req : Auth.Request) : option Auth.Value :=
  match Auth.authorization req with
  | Some header =>
      match headerWord header with
      | Some word => Some (Auth.VString word)
      | None => queryWord (Auth.queryToken req)
      end
  | None => queryWord (Auth.queryToken req)
  end.

(** A secret is configured when the environment variable is set and not empty. *)
Definition configured (accessToken : option string) : bool :=
  match accessToken with
  | Some v => truthy v
  | None => false
  end.

(** A remote upload call failed. *)
Definition uploadFailed (r : World.UploadReply) : bool :=
  match r with World.UploadData => false | _ => true end.

Definition removeFailed (r : World.RemoveReply) : bool :=
  match r with World.RemoveData => false | _ => true end.

Definition listThrown (r : World.ListReply) : bool :=
  match r with World.ListThrown => true | _ => false end.

Definition listed (r : World.ListReply) : list World.FileObject :=
  match r with World.ListData files => files | _ => [] end.

(** The reply the remote store gives to the upload of [file] when the loop
    reaches it in state [t]. *)
Definition replyFor (w : World.World) (bucketName venueName category : string)
    (file : Upload.File) (t : World.Ticks) : World.UploadReply :=
  World.storageUpload w (World.calls t) bucketName
    (FileUtils.generateFolderPath venueName category ++ "/"
       ++ FileUtils.generateFileName venueName (Upload.originalname file) category
            (World.clock w (World.dates t)) (World.uuidv4 w (World.uuids t)))
    (Upload.buffer file) (Upload.mimetype file).

(** The state in which the loop reaches the file that follows [before]. *)
Definition stateAfter (w : World.World) (bucketName venueName category : string)
    (before : list Upload.File) (t : World.Ticks) : World.Ticks :=
  snd (Upload.uploadLoop w bucketName venueName category before t).

(** The replies to the three listing calls, one per bucket, of a request
    started in [t]. *)
Definition listReplies (w : World.World) (b : Config.Buckets) (prefix : string)
    (t : World.Ticks) : list World.ListReply :=
  [World.storageList w (World.calls t) (Config.PHOTOS b) prefix;
   World.storageList w (S (World.calls t)) (Config.MENUS b) prefix;
   World.storageList w (S (S (World.calls t))) (Config.PRICING b) prefix].

(** The files of one bucket as [GET /venues/:venueName/files] reports them:
    the entries whose name has a period. *)
Definition reportedFiles (w : World.World) (bucketName venueName : string)
    (r : World.ListReply) : list Venues.FileInfo :=
  map (Venues.fileInfoOf w bucketName venueName)
    (filter (fun file => truthy (World.name file) && includes "." (World.name file))
       (listed r)).

(** The request-level category of the photos response. *)
Definition requestCategory (category : option string) : string :=
  match category with
  | Some (String c r) => String c r
  | _ => "general"
  end.

Definition hasSubstring (p s : string) : Prop := exists a b, s = a ++ p ++ b.

End Spec.

(** ** Sample inputs *)

Module Sample.
Import World.

Definition tab : ascii := "009"%char.

Definition tabbed : string := String "a" (String tab (String "b" EmptyString)).

Definition noon : FileUtils.Date := FileUtils.mkDate 2024 1 15 10 30 45 0.
Definition noonAndHalf : FileUtils.Date := FileUtils.mkDate 2024 1 15 10 30 45 500.

Definition uuidA : string := "3f2504e0-4f89-41d3-9a0c-0305e82c3301".
Definition uuidB : string := "9b2e7c11-4f89-41d3-9a0c-0305e82c3301".

Definition menu : Upload.File :=
  Upload.mkFile "menu.pdf" "application/pdf" 2048 [].

Definition photo : Upload.File :=
  Upload.mkFile "hall.PNG" "image/png" 4096 [].

Definition folder (n : string) : FileObject := mkFileObject n None None None.

(** A store that accepts everything. *)
Definition calm : World :=
  mkWorld (fun _ => noon) (fun _ => uuidA)
    (fun _ _ _ _ _ => UploadData)
    (fun _ _ _ => ListData [folder "oakview-manor"])
    (fun _ _ _ => RemoveData)
    (fun bucket path => "https://store.example/" ++ bucket ++ "/" ++ path).

(** A store whose first call of a request fails with an error reply, and
    whose later calls succeed. *)
Definition flaky : World :=
  mkWorld (fun _ => noon) (fun _ => uuidA)
    (fun k _ _ _ _ => match k with O => UploadError "Bucket not found" | _ => UploadData end)
    (fun k _ _ => match k with
                  | O => ListError "Bucket not found"
                  | _ => ListData [folder "oakview-manor"]
                  end)
    (fun _ _ _ => RemoveError "Object not found")
    (fun bucket path => "https://store.example/" ++ bucket ++ "/" ++ path).

(** A stored object, as a listing reports it. *)
Definition entry (n : string) : FileObject :=
  mkFileObject n (Some 2048%Z) (Some "2024-01-15T10:30:45.000Z") None.

(** A store with folders and files in no particular order, some of them
    more than once, and whose second call of a request fails. *)
Definition busy : World :=
  mkWorld (fun _ => noon) (fun _ => uuidA)
    (fun _ _ _ _ _ => UploadData)
    (fun k _ _ => match k with
                  | O => ListData [folder "zeta"; entry "menu.pdf"; folder "alpha";
                                   folder "zeta"]
                  | S O => ListError "Bucket not found"
                  | _ => ListData [folder "mid"; folder "alpha"; entry "hall.png";
                                   entry "prices.pdf"]
                  end)
    (fun _ _ _ => RemoveData)
    (fun bucket path => "https://store.example/" ++ bucket ++ "/" ++ path).

Definition start : Ticks := mkTicks 0 0 0.

Definition buckets : Config.Buckets := Config.BUCKETS None None None.

(** What [GET /venues/oakview-manor/files] reports of [entry n] in a bucket
    of [busy]. *)
Definition reported (bucket n : string) : Venues.FileInfo :=
  Venues.mkFileInfo n 2048 (Some "2024-01-15T10:30:45.000Z")
    ("https://store.example/" ++ bucket ++ "/oakview-manor/" ++ n).

Definition busyFiles : list (string * list Venues.FileInfo) :=
  [("photos", [reported "photos" "menu.pdf"]);
   ("menus", []);
   ("pricing", [reported "pricing" "hall.png"; reported "pricing" "prices.pdf"])].

End Sample.

(** ** Shape of a sanitized name *)

Module Shape.
Import JS.

Definition isSlugChar (c : ascii) : bool := isAlnum c || isHyphen c.

Definition headIs (p : ascii -> bool) (s : string) : bool :=
  match s with String c _ => p c | EmptyString => false end.

Fixpoint lastIs (p : ascii -> bool) (s : string) : bool :=
  match s with
  | EmptyString => false
  | String c EmptyString => p c
  | String _ r => lastIs p r
  end.

(** No two adjacent characters of [s] are both in [p]. *)
Fixpoint noPair (p : ascii -> bool) (s : string) : bool :=
  match s with
  | EmptyString => true
  | String c r => negb (p c && headIs p r) && noPair p r
  end.

(** Lower-case alphanumerics and single interior hyphens. *)
Definition slug (s : string) : bool :=
  allStr isSlugChar s && noPair isHyphen s
  && negb (headIs isHyphen s) && negb (lastIs isHyphen s).

Fixpoint countStr (p : ascii -> bool) (s : string) : nat :=
  match s with
  | EmptyString => 0
  | String c r => (if p c then 1 else 0) + countStr p r
  end.

End Shape.

(** ** Predicates for the additional properties *)

Module Props.
Import JS.

Definition isSlash (c : ascii) : bool := (code c =? 47)%N.
Definition isDot (c : ascii) : bool := (code c =? 46)%N.
Definition notSlash (c : ascii) : bool := negb (isSlash c).
Definition notDot (c : ascii) : bool := negb (isDot c).

(** Neither a period nor a slash. *)
Definition plain (c : ascii) : bool := notDot c && notSlash c.

(** Lower-case letters, digits, hyphens and slashes. *)
Definition isFolderChar (c : ascii) : bool := Shape.isSlugChar c || isSlash c.

(** What the scan of [path.extname] has established after reading the
    characters [s] that start at index [n] and run to the end of the path:
    either only trailing slashes were read, or [s] is a slash-free [body]
    followed by trailing slashes, [endIdx] marks the end of [body], and
    [startDot] marks the last period of [body], if any, with [preDotState]
    recording what stands at the left end of the part read before it. *)
Definition scanned (n : Z) (s : list ascii) (st : FileUtils.ExtScan) : Prop :=
  (0 <= n)%Z /\
  ((FileUtils.endIdx st = (-1)%Z /\ FileUtils.startDot st = (-1)%Z
    /\ FileUtils.matchedSlash st = true /\ FileUtils.preDotState st = 0%Z
    /\ forallb isSlash s = true)
   \/ exists body tl,
        s = (body ++ tl)%list /\ forallb isSlash tl = true
        /\ forallb notSlash body = true /\ body <> []
        /\ FileUtils.matchedSlash st = false
        /\ FileUtils.endIdx st = (n + Z.of_nat (List.length body))%Z
        /\ ((FileUtils.startDot st = (-1)%Z /\ FileUtils.preDotState st = 0%Z
             /\ forallb notDot body = true)
            \/ exists a b,
                 body = (a ++ "."%char :: b)%list /\ forallb notDot b = true
                 /\ FileUtils.startDot st = (n + Z.of_nat (List.length a))%Z
                 /\ FileUtils.preDotState st
                    = match a with
                      | [] => 0%Z
                      | c :: _ => if isDot c then 1%Z else (-1)%Z
                      end)).

(** A file passes [validateFiles]: it is within the limit and not empty. *)
Definition sizeOk (maxFileSize : Z) (file : Upload.File) : bool :=
  ((Upload.size file <=? maxFileSize) && negb (Upload.size file =? 0))%Z.

Definition notSpace (c : ascii) : bool := negb (Ascii.eqb c " ").

(** What one entry of the upload results looks like, for the file it
    belongs to: either a success with the derived name, path and public URL
    and the file's own size and type, or a failure with a message only. *)
Definition resultFor (w : World.World) (bucketName venue category : string)
    (file : Upload.File) (r : Upload.UploadResult) : Prop :=
  Upload.originalName r = Upload.originalname file
  /\ ((Upload.success r = true
       /\ exists now uuid,
            let name :=
              FileUtils.generateFileName venue (Upload.originalname file) category
                now uuid in
            let path := FileUtils.generateFolderPath venue category ++ "/" ++ name in
            Upload.fileName r = Some name /\ Upload.filePath r = Some path
            /\ Upload.url r = Some (World.getPublicUrl w bucketName path)
            /\ Upload.resultSize r = Some (Upload.size file)
            /\ Upload.mimeType r = Some (Upload.mimetype file)
            /\ Upload.error r = None)
      \/ (Upload.success r = false /\ Upload.fileName r = None
          /\ Upload.filePath r = None /\ Upload.url r = None
          /\ Upload.resultSize r = None
          /\ exists message, Upload.error r = Some message)).

(** The order of the default [Array.prototype.sort]: by code units. *)
Definition ordered (a b : string) : Prop := String.leb a b = true.

(** The two fields are such that [toLowerCase] exists wherever the loop body
    calls it: the venue name is a string, the category a string or absent. *)
Definition plainFields (venueName category : Auth.Value) : bool :=
  match venueName, category with
  | Auth.VString _, Auth.VString _ => true
  | Auth.VString _, Auth.VUndefined => true
  | _, _ => false
  end.

(** The number of files of an upload whose fields let the loop body reach
    the store: all of them on plain fields, none when either field is an
    array or an object. *)
Definition reaching (venueName category : Auth.Value) (files : list Upload.File) : nat :=
  if plainFields venueName category then List.length files else 0.

(** The result the [catch] of the upload loop records for a file. *)
Definition unexpected (file : Upload.File) : Upload.UploadResult :=
  Upload.failure (Upload.originalname file) "Unexpected upload error".

(** The number of store calls of an upload request that passed the
    credential check: the files reach the loop when the parser did not fail,
    every file passes [validateFiles] and the venue name is truthy.  The
    photos route hands the category on, the other two do not. *)
Definition admitted (withCategory : bool) (maxFileSize : Z) (parsed : Routes.Parsed)
    : nat :=
  match parsed with
  | Routes.ParseDone body (Some files) =>
      if forallb (sizeOk maxFileSize) files
         && Auth.truthyV (UploadFields.venueName body)
      then reaching (UploadFields.venueName body)
             (if withCategory then UploadFields.category body else Auth.VUndefined)
             files
      else 0
  | _ => 0
  end.

(** Comparing two results lexicographically: the first decides unless it is
    [Eq]. *)
Definition andThen (c1 c2 : comparison) : comparison :=
  match c1 with Eq => c2 | _ => c1 end.

(** The order of two instants, up to the second. *)
Definition compareSeconds (a b : FileUtils.Date) : comparison :=
  andThen (FileUtils.year a ?= FileUtils.year b)%Z
    (andThen (FileUtils.month a ?= FileUtils.month b)%Z
       (andThen (FileUtils.day a ?= FileUtils.day b)%Z
          (andThen (FileUtils.hours a ?= FileUtils.hours b)%Z
             (andThen (FileUtils.minutes a ?= FileUtils.minutes b)%Z
                (FileUtils.seconds a ?= FileUtils.seconds b)%Z)))).

(** An entry name that [GET /venues] takes for a venue folder. *)
Definition looksLikeFolder (n : string) : bool := truthy n && negb (includes "." n).

(** An entry name that [GET /venues/:venueName/files] takes for a file. *)
Definition looksLikeFile (n : string) : bool := truthy n && includes "." n.

End Props.

(** * Proofs *)

(** ** Characters *)

Section Characters.
Import JS Shape.

Ltac by_cases c :=
  destruct c as [[|] [|] [|] [|] [|] [|] [|] [|]]; vm_compute; intros;
  try reflexivity; try discriminate; auto.

Lemma toLowerChar_slugChar c : isSlugChar c = true -> toLowerChar c = c.
Proof. revert c; intro c; by_cases c. Qed.

Lemma slugChar_keep c : isSlugChar c = true -> FileUtils.venueKeep c = true.
Proof. by_cases c. Qed.

Lemma slugChar_not_ws c : isSlugChar c = true -> isWhiteSpace c = false.
Proof. by_cases c. Qed.

Lemma keep_not_ws_slugChar c :
  FileUtils.venueKeep c = true -> isWhiteSpace c = false -> isSlugChar c = true.
Proof. by_cases c. Qed.

Lemma hyphen_eq c : isHyphen c = true -> c = "-"%char.
Proof. by_cases c. Qed.

Lemma slugChar_not_hyphen_alnum c :
  isSlugChar c = true -> isHyphen c = false -> isAlnum c = true.
Proof. by_cases c. Qed.

Lemma alnum_lower_fix c : isAlnum c = true -> toLowerChar c = c.
Proof. by_cases c. Qed.

End Characters.

(** ** Strings *)

Section Strings.
Import JS Shape.

Lemma app_nil_r (s : string) : s ++ "" = s.
Proof. induction s as [|c r IH]; simpl; [reflexivity | now rewrite IH]. Qed.

Lemma app_assoc (a b c : string) : (a ++ b) ++ c = a ++ b ++ c.
Proof. induction a as [|x a IH]; simpl; [reflexivity | now rewrite IH]. Qed.

Lemma app_length (a b : string) :
  String.length (a ++ b) = String.length a + String.length b.
Proof. induction a as [|x a IH]; simpl; [reflexivity | now rewrite IH]. Qed.

Lemma app_inv_head (p a b : string) : p ++ a = p ++ b -> a = b.
Proof.
  induction p as [|x p IH]; simpl; intro H; [exact H | injection H; auto].
Qed.

(** Two concatenations with heads of equal length agree piecewise. *)
Lemma app_inj_length (a a' b b' : string) :
  String.length a = String.length a' -> a ++ b = a' ++ b' -> a = a' /\ b = b'.
Proof.
  revert a'; induction a as [|x a IH]; intros [|y a'] L H; simpl in *;
    try discriminate.
  - auto.
  - injection H as -> H. injection L as L.
    destruct (IH _ L H) as [-> ->]. auto.
Qed.

Lemma app_inv_tail (a b e : string) : a ++ e = b ++ e -> a = b.
Proof.
  intro H. apply (app_inj_length a b e e); [|exact H].
  apply (f_equal String.length) in H. rewrite !app_length in H. lia.
Qed.

Lemma allStr_filter p s : allStr p (filterStr p s) = true.
Proof.
  induction s as [|c r IH]; simpl; [reflexivity|].
  destruct (p c) eqn:E; simpl; [rewrite E|]; auto.
Qed.

Lemma allStr_impl (p q : ascii -> bool) s :
  (forall c, p c = true -> q c = true) -> allStr p s = true -> allStr q s = true.
Proof.
  intro I. induction s as [|c r IH]; simpl; [reflexivity|].
  rewrite andb_true_iff. intros [Hc Hr]. rewrite (I _ Hc), (IH Hr). reflexivity.
Qed.

Lemma filter_fix p s : allStr p s = true -> filterStr p s = s.
Proof.
  induction s as [|c r IH]; simpl; [reflexivity|].
  rewrite andb_true_iff. intros [Hc Hr]. now rewrite Hc, IH.
Qed.

Lemma map_fix f p s :
  (forall c, p c = true -> f c = c) -> allStr p s = true -> mapStr f s = s.
Proof.
  intro I. induction s as [|c r IH]; simpl; [reflexivity|].
  rewrite andb_true_iff. intros [Hc Hr]. now rewrite (I _ Hc), IH.
Qed.

(** *** Replacing runs *)

Lemma replaceRuns_all (p q : ascii -> bool) rep b s :
  q rep = true ->
  (forall c, p c = false -> q c = true) \/ allStr q s = true ->
  allStr q (replaceRunsFrom p rep b s) = true.
Proof.
  intros Hrep H. revert b.
  induction s as [|c r IH]; intro b; simpl; [reflexivity|].
  assert (Hr : (forall c, p c = false -> q c = true) \/ allStr q r = true).
  { destruct H as [H|H]; [now left|right].
    simpl in H. now apply andb_true_iff in H. }
  destruct (p c) eqn:E.
  - destruct b; simpl; [|rewrite Hrep]; now rewrite (IH Hr).
  - simpl. rewrite (IH Hr). rewrite andb_true_r.
    destruct H as [H|H]; [now apply H|].
    simpl in H. now apply andb_true_iff in H.
Qed.

Lemma replaceRuns_head p rep s : headIs p (replaceRunsFrom p rep true s) = false.
Proof.
  induction s as [|c r IH]; simpl; [reflexivity|].
  destruct (p c) eqn:E; simpl; auto.
Qed.

Lemma replaceRuns_noPair p rep b s : noPair p (replaceRunsFrom p rep b s) = true.
Proof.
  revert b. induction s as [|c r IH]; intro b; simpl; [reflexivity|].
  destruct (p c) eqn:E.
  - destruct b; [apply IH|]. simpl.
    now rewrite replaceRuns_head, andb_false_r, IH.
  - simpl. now rewrite E, IH.
Qed.

Lemma replaceRuns_absent p rep b s :
  allStr (fun c => negb (p c)) s = true -> replaceRunsFrom p rep b s = s.
Proof.
  revert b. induction s as [|c r IH]; intro b; simpl; [reflexivity|].
  rewrite andb_true_iff, negb_true_iff. intros [Hc Hr].
  now rewrite Hc, IH.
Qed.

Lemma replaceRuns_fix p rep s :
  (forall c, p c = true -> c = rep) ->
  noPair p s = true ->
  replaceRunsFrom p rep false s = s
  /\ (headIs p s = false -> replaceRunsFrom p rep true s = s).
Proof.
  intro U. induction s as [|c r IH]; simpl; [auto|].
  rewrite andb_true_iff, negb_true_iff. intros [Hc Hr].
  destruct (IH Hr) as [IH1 IH2].
  destruct (p c) eqn:E; simpl in *.
  - split; [|discriminate].
    now rewrite (IH2 Hc), (U _ E).
  - now rewrite IH1.
Qed.

(** *** The trimming step *)

Lemma removeLeading_shape s :
  allStr isSlugChar s = true -> noPair isHyphen s = true ->
  allStr isSlugChar (removeLeadingHyphen s) = true
  /\ noPair isHyphen (removeLeadingHyphen s) = true
  /\ headIs isHyphen (removeLeadingHyphen s) = false.
Proof.
  destruct s as [|c r]; simpl; [auto|].
  rewrite !andb_true_iff, negb_true_iff. intros [Hc Hr] [Hp Hn].
  destruct (isHyphen c) eqn:E; simpl in *.
  - auto.
  - now rewrite Hc, Hr, E, Hn.
Qed.

(** Induction following the two-level pattern of [removeTrailingHyphen] and
    [lastIs]. *)
Lemma string_ind2 (P : string -> Prop) :
  P EmptyString ->
  (forall c, P (String c EmptyString)) ->
  (forall c d r, P (String d r) -> P (String c (String d r))) ->
  forall s, P s.
Proof.
  intros H0 H1 H2. induction s as [|c r IH]; [exact H0|].
  destruct r as [|d r]; [apply H1 | apply H2, IH].
Qed.

Lemma removeTrailing_cons c d r :
  removeTrailingHyphen (String c (String d r))
  = String c (removeTrailingHyphen (String d r)).
Proof. reflexivity. Qed.

Lemma removeTrailing_all p s :
  allStr p s = true -> allStr p (removeTrailingHyphen s) = true.
Proof.
  induction s as [|c|c d r IH] using string_ind2; [auto| |].
  - simpl. destruct (isHyphen c); auto.
  - rewrite removeTrailing_cons. intro H.
    change (p c && allStr p (String d r) = true) in H.
    apply andb_true_iff in H as [Hc Hr].
    change (p c && allStr p (removeTrailingHyphen (String d r)) = true).
    now rewrite Hc, (IH Hr).
Qed.

Lemma removeTrailing_head p s :
  headIs p s = false -> headIs p (removeTrailingHyphen s) = false.
Proof.
  destruct s as [|c [|d r]]; simpl; auto.
  destruct (isHyphen c); auto.
Qed.

Lemma removeTrailing_noPair p s :
  noPair p s = true -> noPair p (removeTrailingHyphen s) = true.
Proof.
  induction s as [|c|c d r IH] using string_ind2; [auto| |].
  - simpl. destruct (isHyphen c); auto.
  - rewrite removeTrailing_cons.
    change (noPair p (String c ?t)) with (negb (p c && headIs p t) && noPair p t).
    rewrite !andb_true_iff, !negb_true_iff. intros [Hc Hr]. split; [|auto].
    apply andb_false_iff in Hc as [Hc|Hc]; [now rewrite Hc|].
    now rewrite (removeTrailing_head p _ Hc), andb_false_r.
Qed.

Lemma removeTrailing_empty s :
  removeTrailingHyphen s = EmptyString ->
  s = EmptyString \/ exists c, s = String c EmptyString /\ isHyphen c = true.
Proof.
  destruct s as [|c [|d r]]; [auto| |].
  - simpl. destruct (isHyphen c) eqn:E; [|discriminate]. right. eauto.
  - rewrite removeTrailing_cons. discriminate.
Qed.

Lemma removeTrailing_last s :
  noPair isHyphen s = true -> lastIs isHyphen (removeTrailingHyphen s) = false.
Proof.
  induction s as [|c|c d r IH] using string_ind2; [auto| |].
  - simpl. destruct (isHyphen c) eqn:E; simpl; auto.
  - rewrite removeTrailing_cons.
    change (noPair isHyphen (String c ?t))
      with (negb (isHyphen c && headIs isHyphen t) && noPair isHyphen t).
    rewrite andb_true_iff, negb_true_iff. intros [Hc Hr].
    specialize (IH Hr).
    destruct (removeTrailingHyphen (String d r)) as [|e t] eqn:T.
    + apply removeTrailing_empty in T as [T|[h [T Hh]]]; [discriminate|].
      injection T as -> ->. simpl in Hc. rewrite Hh, andb_true_r in Hc.
      simpl. exact Hc.
    + exact IH.
Qed.

Lemma removeLeading_fix s :
  headIs isHyphen s = false -> removeLeadingHyphen s = s.
Proof. destruct s as [|c r]; simpl; [auto|]. now intros ->. Qed.

Lemma removeTrailing_fix s :
  lastIs isHyphen s = false -> removeTrailingHyphen s = s.
Proof.
  induction s as [|c|c d r IH] using string_ind2; [auto| |].
  - simpl. now intros ->.
  - rewrite removeTrailing_cons. intro H. now rewrite IH.
Qed.

End Strings.

(** ** The venue-name sanitizer *)

Section Sanitizer.
Import JS Shape FileUtils.

Lemma replaceRuns_ws_slug b s :
  allStr venueKeep s = true ->
  allStr isSlugChar (replaceRunsFrom isWhiteSpace "-" b s) = true.
Proof.
  revert b. induction s as [|c r IH]; intros b A; simpl; [reflexivity|].
  simpl in A. apply andb_true_iff in A as [Hc Hr].
  destruct (isWhiteSpace c) eqn:E.
  - destruct b; simpl; now rewrite IH.
  - simpl. now rewrite (keep_not_ws_slugChar c Hc E), IH.
Qed.

Lemma sanitize_slug x : slug (sanitizeVenueName x) = true.
Proof.
  unfold sanitizeVenueName, replaceRuns, removeNotIn.
  set (s1 := filterStr venueKeep (toLowerCase x)).
  set (s2 := replaceRunsFrom isWhiteSpace "-" false s1).
  set (s3 := replaceRunsFrom isHyphen "-" false s2).
  assert (A1 : allStr venueKeep s1 = true) by apply allStr_filter.
  assert (A2 : allStr isSlugChar s2 = true) by now apply replaceRuns_ws_slug.
  assert (A3 : allStr isSlugChar s3 = true).
  { apply replaceRuns_all; [reflexivity | now right]. }
  assert (N3 : noPair isHyphen s3 = true) by apply replaceRuns_noPair.
  destruct (removeLeading_shape s3 A3 N3) as (A4 & N4 & H4).
  unfold slug.
  rewrite (removeTrailing_all _ _ A4), (removeTrailing_noPair _ _ N4),
    (removeTrailing_head _ _ H4), (removeTrailing_last _ N4).
  reflexivity.
Qed.

Lemma slug_parts s :
  slug s = true ->
  allStr isSlugChar s = true /\ noPair isHyphen s = true
  /\ headIs isHyphen s = false /\ lastIs isHyphen s = false.
Proof.
  unfold slug. rewrite !andb_true_iff, !negb_true_iff. tauto.
Qed.

Lemma sanitize_fixes_slug s : slug s = true -> sanitizeVenueName s = s.
Proof.
  intro H. apply slug_parts in H as (A & N & Hd & L).
  unfold sanitizeVenueName, replaceRuns, removeNotIn, toLowerCase.
  rewrite (map_fix _ _ _ toLowerChar_slugChar A).
  rewrite (filter_fix venueKeep s (allStr_impl _ _ _ slugChar_keep A)).
  rewrite (replaceRuns_absent isWhiteSpace).
  2:{ revert A. apply allStr_impl. intros c Hc.
      now rewrite (slugChar_not_ws _ Hc). }
  rewrite (proj1 (replaceRuns_fix isHyphen "-" s hyphen_eq N)).
  now rewrite (removeLeading_fix _ Hd), (removeTrailing_fix _ L).
Qed.

(** *** A slug matches the regular expression *)

Lemma alnum_plus c w :
  isAlnum c = true -> allStr isAlnum w = true ->
  Spec.matches (Spec.Plus (Spec.Class isAlnum)) (String c w).
Proof.
  intros Hc Hw.
  change (String c w) with (String c EmptyString ++ w).
  apply Spec.MSeq; [now apply Spec.MClass|].
  induction w as [|d w IH]; [apply Spec.MStarNil|].
  simpl in Hw. apply andb_true_iff in Hw as [Hd Hw].
  change (String d w) with (String d EmptyString ++ w).
  apply Spec.MStarStep; [now apply Spec.MClass | now apply IH].
Qed.

(** A string of slug characters without adjacent hyphens and not ending in a
    hyphen splits into a leading alphanumeric run and hyphen-led groups. *)
Lemma slug_split s :
  allStr isSlugChar s = true -> noPair isHyphen s = true ->
  lastIs isHyphen s = false ->
  exists w t, s = w ++ t /\ allStr isAlnum w = true
    /\ Spec.matches (Spec.Star (Spec.Seq (Spec.Class isHyphen)
                                  (Spec.Plus (Spec.Class isAlnum)))) t
    /\ (headIs isAlnum s = true -> w <> EmptyString).
Proof.
  induction s as [|c r IH].
  - intros _ _ _. exists EmptyString, EmptyString. repeat split; auto.
    + apply Spec.MStarNil.
    + discriminate.
  - intros A N L. simpl in A, N.
    apply andb_true_iff in A as [Hc Hr].
    apply andb_true_iff in N as [Hp Hn]. apply negb_true_iff in Hp.
    assert (Lr : r <> EmptyString -> lastIs isHyphen r = false).
    { destruct r; [congruence | intros _; exact L]. }
    destruct (isHyphen c) eqn:E.
    + (* a hyphen opens a group: an alphanumeric must follow *)
      simpl in Hp. destruct r as [|d r'].
      { simpl in L. congruence. }
      assert (Hd : isAlnum d = true).
      { simpl in Hr. apply andb_true_iff in Hr as [Hd _].
        now apply slugChar_not_hyphen_alnum. }
      destruct (IH Hr Hn (Lr ltac:(discriminate))) as (w & t & Eq & Hw & Ht & Hne).
      destruct w as [|e w]; [now destruct (Hne Hd)|].
      exists EmptyString, (String c (String e w) ++ t).
      repeat split.
      * simpl. now rewrite Eq.
      * apply Spec.MStarStep; [|exact Ht].
        change (String c (String e w)) with (String c EmptyString ++ String e w).
        apply Spec.MSeq; [now apply Spec.MClass|].
        simpl in Hw. apply andb_true_iff in Hw as [He Hw].
        now apply alnum_plus.
      * simpl. intro F.
        assert (isHyphen c = false) by (clear -F; revert F; destruct c as [[|] [|] [|] [|] [|] [|] [|] [|]]; vm_compute; congruence).
        congruence.
    + assert (Ha : isAlnum c = true) by now apply slugChar_not_hyphen_alnum.
      destruct r as [|d r'].
      * exists (String c EmptyString), EmptyString. repeat split.
        -- simpl. now rewrite Ha.
        -- apply Spec.MStarNil.
        -- discriminate.
      * destruct (IH Hr Hn (Lr ltac:(discriminate))) as (w & t & Eq & Hw & Ht & _).
        exists (String c w), t. repeat split.
        -- simpl. now rewrite Eq.
        -- simpl. now rewrite Ha, Hw.
        -- exact Ht.
        -- discriminate.
Qed.

Lemma slug_matches s :
  slug s = true -> s = EmptyString \/ Spec.matches Spec.slugRegex s.
Proof.
  intro H. apply slug_parts in H as (A & N & Hd & L).
  destruct s as [|c r]; [now left | right].
  destruct (slug_split _ A N L) as (w & t & Eq & Hw & Ht & Hne).
  assert (Hc : isAlnum c = true).
  { simpl in A, Hd. apply andb_true_iff in A as [Hc _].
    now apply slugChar_not_hyphen_alnum. }
  destruct w as [|e w]; [now destruct (Hne Hc)|].
  rewrite Eq. apply Spec.MSeq; [|exact Ht].
  simpl in Hw. apply andb_true_iff in Hw as [He Hw].
  now apply alnum_plus.
Qed.

(** *** The specification's steps against the code's *)

Lemma collapse_replaceRuns p rep s :
  replaceRunsFrom p rep false s = Spec.collapse p rep s
  /\ (headIs p s = true ->
      String rep (replaceRunsFrom p rep true s) = Spec.collapse p rep s)
  /\ (headIs p s = false -> replaceRunsFrom p rep true s = Spec.collapse p rep s).
Proof.
  induction s as [|c r (IH1 & IH2 & IH3)]; [simpl; repeat split; auto; discriminate|].
  assert (Hkey : p c = true ->
            String rep (replaceRunsFrom p rep true r) = Spec.collapse p rep (String c r)).
  { intro E. simpl. rewrite E. destruct r as [|d r'].
    - reflexivity.
    - destruct (p d) eqn:Ed.
      + apply IH2. simpl. exact Ed.
      + f_equal. apply IH3. simpl. exact Ed. }
  simpl headIs. destruct (p c) eqn:E.
  - repeat split.
    + simpl replaceRunsFrom. rewrite E. now apply Hkey.
    + intros _. simpl replaceRunsFrom. rewrite E. now apply Hkey.
    + discriminate.
  - simpl. rewrite E, IH1. repeat split; auto; discriminate.
Qed.

Lemma trimLeft_remove s :
  noPair isHyphen s = true -> Spec.trimLeft s = removeLeadingHyphen s.
Proof.
  destruct s as [|c r]; simpl; [auto|].
  rewrite andb_true_iff, negb_true_iff. intros [Hp _].
  destruct (isHyphen c) eqn:E; [|reflexivity].
  simpl in Hp. destruct r as [|d r']; simpl in *; [reflexivity|].
  now rewrite Hp.
Qed.

Lemma trimRight_remove s :
  noPair isHyphen s = true -> Spec.trimRight s = removeTrailingHyphen s.
Proof.
  induction s as [|c|c d r IH] using string_ind2; [auto| |].
  - reflexivity.
  - rewrite removeTrailing_cons.
    change (noPair isHyphen (String c ?t))
      with (negb (isHyphen c && headIs isHyphen t) && noPair isHyphen t).
    rewrite andb_true_iff, negb_true_iff. intros [Hc Hr].
    change (Spec.trimRight (String c (String d r)))
      with (match Spec.trimRight (String d r) with
            | EmptyString => if isHyphen c then EmptyString else String c EmptyString
            | t => String c t
            end).
    rewrite (IH Hr).
    destruct (removeTrailingHyphen (String d r)) as [|e t] eqn:T; [|reflexivity].
    apply removeTrailing_empty in T as [T|[h [T Hh]]]; [discriminate|].
    injection T as -> ->. simpl in Hc. rewrite Hh, andb_true_r in Hc.
    now rewrite Hc.
Qed.

Lemma sanitize_refines x : sanitizeVenueName x = Spec.sanitizeWs x.
Proof.
  unfold Spec.sanitizeWs, Spec.sanitizeWith, sanitizeVenueName, replaceRuns, removeNotIn.
  change (fun c => isLower c || isDigit c || isWhiteSpace c || isHyphen c)
    with venueKeep.
  set (s1 := filterStr venueKeep (toLowerCase x)).
  rewrite <- (proj1 (collapse_replaceRuns isWhiteSpace "-" s1)).
  set (s2 := replaceRunsFrom isWhiteSpace "-" false s1).
  rewrite <- (proj1 (collapse_replaceRuns isHyphen "-" s2)).
  set (s3 := replaceRunsFrom isHyphen "-" false s2).
  assert (N3 : noPair isHyphen s3 = true) by apply replaceRuns_noPair.
  rewrite (trimLeft_remove _ N3).
  rewrite trimRight_remove; [reflexivity|].
  clearbody s3. destruct s3 as [|c r]; [reflexivity|].
  simpl. destruct (isHyphen c) eqn:E; [|exact N3].
  simpl in N3. now apply andb_true_iff in N3.
Qed.

End Sanitizer.

(** ** Timestamps and object names *)

Section Names.
Import JS Shape FileUtils.

Lemma mapStr_app f a b : mapStr f (a ++ b) = mapStr f a ++ mapStr f b.
Proof. induction a as [|c a IH]; simpl; [reflexivity | now rewrite IH]. Qed.

Lemma mapStr_length f s : String.length (mapStr f s) = String.length s.
Proof. induction s as [|c r IH]; simpl; [reflexivity | now rewrite IH]. Qed.

Lemma allStr_app p a b : allStr p (a ++ b) = allStr p a && allStr p b.
Proof.
  induction a as [|c a IH]; simpl; [reflexivity|].
  now rewrite IH, andb_assoc.
Qed.

Lemma countStr_app p a b : countStr p (a ++ b) = countStr p a + countStr p b.
Proof. induction a as [|c a IH]; simpl; [reflexivity | rewrite IH; lia]. Qed.

Lemma countStr_all p s : allStr p s = true -> countStr p s = String.length s.
Proof.
  induction s as [|c r IH]; simpl; [reflexivity|].
  rewrite andb_true_iff. intros [-> Hr]. now rewrite IH.
Qed.

Lemma countStr_none p q s :
  (forall c, p c = true -> q c = false) -> allStr p s = true -> countStr q s = 0.
Proof.
  intro I. induction s as [|c r IH]; simpl; [reflexivity|].
  rewrite andb_true_iff. intros [Hc Hr]. now rewrite (I _ Hc), IH.
Qed.

Lemma slice0_length n s : n <= String.length s -> String.length (slice0 n s) = n.
Proof.
  revert s. induction n as [|n IH]; intros [|c r] H; simpl in *; try lia.
  rewrite IH; lia.
Qed.

Lemma slice0_app n a b : String.length a = n -> slice0 n (a ++ b) = a.
Proof.
  revert a. induction n as [|n IH]; intros [|c a] H; simpl in *; try discriminate.
  - now destruct b.
  - rewrite IH; [reflexivity | lia].
Qed.

(** *** Decimal digits *)

Lemma digit_cases n :
  let r := (n mod 10)%Z in
  r = 0%Z \/ r = 1%Z \/ r = 2%Z \/ r = 3%Z \/ r = 4%Z
  \/ r = 5%Z \/ r = 6%Z \/ r = 7%Z \/ r = 8%Z \/ r = 9%Z.
Proof. simpl. pose proof (Z.mod_pos_bound n 10). lia. Qed.

Lemma digitChar_isDigit n : isDigit (digitChar n) = true.
Proof.
  unfold digitChar.
  destruct (digit_cases n) as [H|[H|[H|[H|[H|[H|[H|[H|[H|H]]]]]]]]];
    rewrite H; reflexivity.
Qed.

Lemma digitChar_inj n m : digitChar n = digitChar m -> (n mod 10 = m mod 10)%Z.
Proof.
  unfold digitChar.
  destruct (digit_cases n) as [H|[H|[H|[H|[H|[H|[H|[H|[H|H]]]]]]]]];
    destruct (digit_cases m) as [K|[K|[K|[K|[K|[K|[K|[K|[K|K]]]]]]]]];
    rewrite H, K; vm_compute; congruence.
Qed.

Lemma padDigits_length k n : String.length (padDigits k n) = k.
Proof.
  revert n. induction k as [|k IH]; intro n; simpl; [reflexivity|].
  rewrite app_length, IH. simpl. lia.
Qed.

Lemma padDigits_digits k n : allStr isDigit (padDigits k n) = true.
Proof.
  revert n. induction k as [|k IH]; intro n; simpl; [reflexivity|].
  rewrite allStr_app, IH. simpl. now rewrite digitChar_isDigit.
Qed.

Lemma padDigits_inj k n m :
  (0 <= n < 10 ^ Z.of_nat k)%Z -> (0 <= m < 10 ^ Z.of_nat k)%Z ->
  padDigits k n = padDigits k m -> n = m.
Proof.
  revert n m. induction k as [|k IH]; intros n m Hn Hm E.
  - simpl in Hn, Hm. lia.
  - simpl in E.
    apply app_inj_length in E; [|now rewrite !padDigits_length].
    destruct E as [E1 E2]. injection E2 as E2. apply digitChar_inj in E2.
    rewrite Nat2Z.inj_succ, Z.pow_succ_r in Hn, Hm by lia.
    assert (n / 10 = m / 10)%Z.
    { apply IH; [| |exact E1].
      - split; [apply Z.div_pos; lia | apply Z.div_lt_upper_bound; lia].
      - split; [apply Z.div_pos; lia | apply Z.div_lt_upper_bound; lia]. }
    rewrite (Z.div_mod n 10), (Z.div_mod m 10) by lia. lia.
Qed.

Lemma digit_not_separator c : isDigit c = true -> colonDotToHyphen c = c.
Proof.
  destruct c as [[|] [|] [|] [|] [|] [|] [|] [|]]; vm_compute; congruence.
Qed.

Lemma padDigits_unchanged k n :
  mapStr colonDotToHyphen (padDigits k n) = padDigits k n.
Proof.
  apply (map_fix _ isDigit); [apply digit_not_separator | apply padDigits_digits].
Qed.

(** *** The timestamp *)

Lemma toISOString_length d : 19 <= String.length (toISOString d).
Proof.
  unfold toISOString.
  destruct (_ && _); repeat (rewrite app_length || rewrite padDigits_length);
    simpl; lia.
Qed.

Lemma timestampOf_length d : String.length (timestampOf d) = 19.
Proof.
  unfold timestampOf. apply slice0_length.
  rewrite mapStr_length. apply toISOString_length.
Qed.

Lemma secondStamp_length d : String.length (Spec.secondStamp d) = 19.
Proof.
  unfold Spec.secondStamp.
  repeat (rewrite app_length || rewrite padDigits_length). reflexivity.
Qed.

Lemma timestampOf_stamp d :
  ((0 <=? year d) && (year d <=? 9999))%Z = true ->
  timestampOf d = Spec.secondStamp d.
Proof.
  intro Y. unfold timestampOf, toISOString. rewrite Y.
  rewrite !mapStr_app, !padDigits_unchanged.
  replace (padDigits 4 (year d) ++ mapStr colonDotToHyphen "-" ++ padDigits 2 (month d)
           ++ mapStr colonDotToHyphen "-" ++ padDigits 2 (day d)
           ++ mapStr colonDotToHyphen "T" ++ padDigits 2 (hours d)
           ++ mapStr colonDotToHyphen ":" ++ padDigits 2 (minutes d)
           ++ mapStr colonDotToHyphen ":" ++ padDigits 2 (seconds d)
           ++ mapStr colonDotToHyphen "." ++ padDigits 3 (milliseconds d)
           ++ mapStr colonDotToHyphen "Z")
    with (Spec.secondStamp d ++ ("-" ++ padDigits 3 (milliseconds d) ++ "Z")).
  - apply slice0_app, secondStamp_length.
  - unfold Spec.secondStamp. rewrite !app_assoc. reflexivity.
Qed.

Lemma validDate_bounds d :
  Spec.validDate d = true ->
  (0 <= year d <= 9999 /\ 1 <= month d <= 12 /\ 1 <= day d <= 31
   /\ 0 <= hours d <= 23 /\ 0 <= minutes d <= 59 /\ 0 <= seconds d <= 59
   /\ 0 <= milliseconds d <= 999)%Z.
Proof.
  unfold Spec.validDate. rewrite !andb_true_iff, !Z.leb_le. lia.
Qed.

Lemma validDate_year d :
  Spec.validDate d = true -> ((0 <=? year d) && (year d <=? 9999))%Z = true.
Proof.
  intro V. apply validDate_bounds in V. rewrite andb_true_iff, !Z.leb_le. lia.
Qed.

Lemma sameSecond_fields a b :
  Spec.sameSecond a b = true <->
  year a = year b /\ month a = month b /\ day a = day b
  /\ hours a = hours b /\ minutes a = minutes b /\ seconds a = seconds b.
Proof.
  unfold Spec.sameSecond. rewrite !andb_true_iff, !Z.eqb_eq. tauto.
Qed.

(** Peeling one zero-padded field and the separator after it. *)
Lemma field_inj k n m (x y : string) :
  (0 <= n < 10 ^ Z.of_nat k)%Z -> (0 <= m < 10 ^ Z.of_nat k)%Z ->
  padDigits k n ++ x = padDigits k m ++ y -> n = m /\ x = y.
Proof.
  intros Hn Hm E.
  apply app_inj_length in E; [|now rewrite !padDigits_length].
  destruct E as [E ->]. split; [|reflexivity].
  now apply (padDigits_inj k).
Qed.

Lemma timestamp_same_second a b :
  Spec.validDate a = true -> Spec.validDate b = true ->
  (timestampOf a = timestampOf b <-> Spec.sameSecond a b = true).
Proof.
  intros Va Vb.
  rewrite (timestampOf_stamp a (validDate_year a Va)),
          (timestampOf_stamp b (validDate_year b Vb)).
  apply validDate_bounds in Va, Vb.
  rewrite sameSecond_fields. unfold Spec.secondStamp. split.
  - intro E.
    apply field_inj in E as [Ey E]; [|simpl; lia..]. apply (app_inv_head "-") in E.
    apply field_inj in E as [Em E]; [|simpl; lia..]. apply (app_inv_head "-") in E.
    apply field_inj in E as [Ed E]; [|simpl; lia..]. apply (app_inv_head "T") in E.
    apply field_inj in E as [Eh E]; [|simpl; lia..]. apply (app_inv_head "-") in E.
    apply field_inj in E as [Ei E]; [|simpl; lia..]. apply (app_inv_head "-") in E.
    rewrite <- (app_nil_r (padDigits 2 (seconds a))),
            <- (app_nil_r (padDigits 2 (seconds b))) in E.
    apply field_inj in E as [Es _]; [|simpl; lia..].
    auto 10.
  - intros (-> & -> & -> & -> & -> & ->). reflexivity.
Qed.

(** *** Object names *)

Lemma generateFileName_parts v o c now uuid :
  generateFileName v o c now uuid
  = (sanitizeVenueName v ++ "_"
       ++ (if truthy c then sanitizedCategoryOf c ++ "_" else EmptyString))
    ++ timestampOf now ++ "_" ++ slice0 8 uuid ++ toLowerCase (extname o).
Proof.
  unfold generateFileName. destruct (truthy c); rewrite !app_assoc; simpl;
    rewrite ?app_assoc; reflexivity.
Qed.

Lemma generateFileName_eq_iff v o c n1 u1 n2 u2 :
  generateFileName v o c n1 u1 = generateFileName v o c n2 u2
  <-> timestampOf n1 = timestampOf n2 /\ slice0 8 u1 = slice0 8 u2.
Proof.
  rewrite !generateFileName_parts. split.
  - intro E. apply app_inv_head in E.
    apply app_inj_length in E; [|now rewrite !timestampOf_length].
    destruct E as [Et E]. split; [exact Et|].
    apply (app_inv_head "_") in E. now apply app_inv_tail in E.
  - now intros [-> ->].
Qed.

End Names.

(** ** Prefixes and substrings *)

Section Substrings.
Import JS.

Lemma startsWith_prefix p s : startsWith p s = true <-> Spec.hasPrefix p s.
Proof.
  unfold Spec.hasPrefix. revert s. induction p as [|a p IH]; intro s.
  - simpl. split; [intros _; now exists s | reflexivity].
  - destruct s as [|b s]; simpl.
    + split; [discriminate | intros [r H]; discriminate].
    + rewrite andb_true_iff, Ascii.eqb_eq, IH. split.
      * intros [-> [r ->]]. now exists r.
      * intros [r H]. injection H as -> ->. split; [reflexivity | now exists r].
Qed.

Lemma includes_unfold p s :
  includes p s
  = startsWith p s || match s with EmptyString => false | String _ r => includes p r end.
Proof. destruct s; reflexivity. Qed.

Lemma includes_substring p s : includes p s = true <-> Spec.hasSubstring p s.
Proof.
  unfold Spec.hasSubstring. split.
  - induction s as [|c r IH]; rewrite includes_unfold, orb_true_iff.
    + intros [H|H]; [|discriminate].
      apply startsWith_prefix in H as [b H]. now exists EmptyString, b.
    + intros [H|H].
      * apply startsWith_prefix in H as [b H]. now exists EmptyString, b.
      * destruct (IH H) as (a & b & ->). now exists (String c a), b.
  - intros (a & b & ->). induction a as [|c a IH].
    + change (includes p (p ++ b) = true). rewrite includes_unfold.
      rewrite (proj2 (startsWith_prefix p (p ++ b))); [reflexivity|].
      now exists b.
    + change (includes p (String c (a ++ p ++ b)) = true).
      rewrite includes_unfold, IH. apply orb_true_r.
Qed.

End Substrings.

(** ** The upload loop *)

Section UploadLoop.
Import JS FileUtils World Upload.

Variable w : World.
Variables bucketName venue category : string.

Lemma uploadOne_result file t :
  let r := fst (uploadOne w bucketName venue category file t) in
  let reply := Spec.replyFor w bucketName venue category file t in
  originalName r = originalname file
  /\ success r = negb (Spec.uploadFailed reply)
  /\ (success r = true ->
      let fileName :=
        generateFileName venue (originalname file) category
          (clock w (dates t)) (uuidv4 w (uuids t)) in
      Upload.fileName r = Some fileName
      /\ filePath r = Some (generateFolderPath venue category ++ "/" ++ fileName)
      /\ mimeType r = Some (mimetype file)
      /\ resultCategory r = Some (getFileCategory (mimetype file))).
Proof.
  unfold uploadOne, Spec.replyFor, bind, newDate, newUuid, upload, ret. simpl.
  destruct (storageUpload w _ _ _ _ _); simpl; repeat split; auto; discriminate.
Qed.

Lemma uploadOne_calls file t :
  calls (snd (uploadOne w bucketName venue category file t)) = S (calls t).
Proof.
  unfold uploadOne, bind, newDate, newUuid, upload, ret. simpl.
  destruct (storageUpload w _ _ _ _ _); reflexivity.
Qed.

Lemma uploadLoop_cons file rest t :
  uploadLoop w bucketName venue category (file :: rest) t
  = let (r, t1) := uploadOne w bucketName venue category file t in
    let (rs, t2) := uploadLoop w bucketName venue category rest t1 in
    (r :: rs, t2).
Proof.
  simpl. unfold bind, ret.
  destruct (uploadOne w bucketName venue category file t) as [r t1].
  destruct (uploadLoop w bucketName venue category rest t1) as [rs t2].
  reflexivity.
Qed.

Lemma uploadLoop_app pre post t :
  uploadLoop w bucketName venue category (pre ++ post)%list t
  = let (rs1, t1) := uploadLoop w bucketName venue category pre t in
    let (rs2, t2) := uploadLoop w bucketName venue category post t1 in
    ((rs1 ++ rs2)%list, t2).
Proof.
  revert t. induction pre as [|f pre IH]; intro t.
  - simpl. unfold ret.
    now destruct (uploadLoop w bucketName venue category post t).
  - rewrite <- List.app_comm_cons, !uploadLoop_cons.
    destruct (uploadOne w bucketName venue category f t) as [r t1].
    rewrite IH.
    destruct (uploadLoop w bucketName venue category pre t1) as [rs1 t2].
    destruct (uploadLoop w bucketName venue category post t2) as [rs2 t3].
    reflexivity.
Qed.

Lemma uploadLoop_length files t :
  List.length (fst (uploadLoop w bucketName venue category files t))
  = List.length files.
Proof.
  revert t. induction files as [|f files IH]; intro t; [reflexivity|].
  rewrite uploadLoop_cons.
  destruct (uploadOne w bucketName venue category f t) as [r t1].
  specialize (IH t1).
  destruct (uploadLoop w bucketName venue category files t1) as [rs t2].
  simpl in *. now rewrite IH.
Qed.

Lemma uploadLoop_calls files t :
  calls (snd (uploadLoop w bucketName venue category files t))
  = calls t + List.length files.
Proof.
  revert t. induction files as [|f files IH]; intro t; [simpl; lia|].
  rewrite uploadLoop_cons.
  pose proof (uploadOne_calls f t) as C.
  destruct (uploadOne w bucketName venue category f t) as [r t1].
  specialize (IH t1).
  destruct (uploadLoop w bucketName venue category files t1) as [rs t2].
  simpl in *. lia.
Qed.

(** The result at the position of [file] is decided by the reply to that
    file's own upload call. *)
Lemma uploadLoop_nth pre file post t :
  let rs := fst (uploadLoop w bucketName venue category (pre ++ file :: post)%list t) in
  let t1 := Spec.stateAfter w bucketName venue category pre t in
  nth_error rs (List.length pre)
  = Some (fst (uploadOne w bucketName venue category file t1)).
Proof.
  unfold Spec.stateAfter. cbv zeta.
  rewrite uploadLoop_app.
  pose proof (uploadLoop_length pre t) as L.
  destruct (uploadLoop w bucketName venue category pre t) as [rs1 t1].
  rewrite uploadLoop_cons. cbn [fst snd] in *.
  destruct (uploadOne w bucketName venue category file t1) as [r t2].
  destruct (uploadLoop w bucketName venue category post t2) as [rs2 t3].
  simpl in *. rewrite <- L.
  rewrite nth_error_app2 by lia. rewrite Nat.sub_diag. reflexivity.
Qed.

(** Every successful result carries the advisory class of its own file. *)
Lemma uploadLoop_categories files t :
  Forall2
    (fun file r =>
       originalName r = originalname file
       /\ (success r = true ->
           resultCategory r = Some (getFileCategory (mimetype file))))
    files (fst (uploadLoop w bucketName venue category files t)).
Proof.
  revert t. induction files as [|f files IH]; intro t; [constructor|].
  rewrite uploadLoop_cons.
  pose proof (uploadOne_result f t) as R.
  destruct (uploadOne w bucketName venue category f t) as [r t1].
  specialize (IH t1).
  destruct (uploadLoop w bucketName venue category files t1) as [rs t2].
  simpl in *. constructor; [|exact IH].
  destruct R as (R1 & _ & R3). split; [exact R1|].
  intro S. now destruct (R3 S) as (_ & _ & _ & R4).
Qed.

End UploadLoop.

(** ** Listing and deleting *)

Section Listing.
Import JS World Config Venues.

Lemma getVenues_closed w b t :
  fst (getVenues w b t)
  = if existsb Spec.listThrown (Spec.listReplies w b "" t)
    then Failed 500 "Failed to fetch venues" "Unable to retrieve venue list"
    else
      let venueList :=
        sort (fold_left (fun acc r => addFolders (Spec.listed r) acc)
                (Spec.listReplies w b "" t) []) in
      VenueList venueList (List.length venueList).
Proof.
  unfold getVenues, Spec.listReplies, values. cbn [collectVenues].
  unfold bind, ret, listObjects. cbn [calls].
  destruct (storageList w (calls t) (PHOTOS b) ""); cbn [calls];
    destruct (storageList w (S (calls t)) (MENUS b) ""); cbn [calls];
    destruct (storageList w (S (S (calls t))) (PRICING b) ""); reflexivity.
Qed.

Lemma getVenueFiles_closed w b venueName t :
  fst (getVenueFiles w b venueName t)
  = if existsb Spec.listThrown (Spec.listReplies w b venueName t)
    then Failed 500 "Failed to fetch venue files" "Unable to retrieve files for this venue"
    else
      let photos :=
        Spec.reportedFiles w (PHOTOS b) venueName (storageList w (calls t) (PHOTOS b) venueName) in
      let menus :=
        Spec.reportedFiles w (MENUS b) venueName
          (storageList w (S (calls t)) (MENUS b) venueName) in
      let pricing :=
        Spec.reportedFiles w (PRICING b) venueName
          (storageList w (S (S (calls t))) (PRICING b) venueName) in
      VenueFiles venueName
        [("photos", photos); ("menus", menus); ("pricing", pricing)]
        (List.length photos + List.length menus + List.length pricing).
Proof.
  unfold getVenueFiles, Spec.listReplies, Spec.reportedFiles, entries.
  cbn [collectFiles]. unfold bind, ret, listObjects. cbn [calls].
  destruct (storageList w (calls t) (PHOTOS b) venueName); cbn [calls];
    destruct (storageList w (S (calls t)) (MENUS b) venueName); cbn [calls];
    destruct (storageList w (S (S (calls t))) (PRICING b) venueName);
    cbn [fst existsb Spec.listThrown orb Spec.listed List.app fold_left snd
         filter map List.length Nat.add];
    try reflexivity; f_equal; lia.
Qed.

Lemma deleteFile_failure w b venueName bucket fileName t :
  existsb (String.eqb bucket) (values b) = true ->
  Spec.removeFailed (storageRemove w (calls t) bucket [venueName ++ "/" ++ fileName]) = true ->
  exists message, fst (deleteFile w b venueName bucket fileName t)
                  = Failed 500 "Delete failed" message.
Proof.
  intros B R. unfold deleteFile, bind, ret, removeObjects. rewrite B. simpl.
  destruct (storageRemove w (calls t) bucket _); [discriminate| |]; simpl; eauto.
Qed.

End Listing.

(** * The claims *)

Section Claims.
Import JS Shape FileUtils.

(** C1, as stated, fails: two instants of the same second, 500 ms apart,
    with the same suffix give the same object name. *)
Lemma generateFileName_same_second_collision :
  Sample.noon <> Sample.noonAndHalf
  /\ generateFileName "Oakview Manor" "menu.pdf" "" Sample.noon Sample.uuidA
     = generateFileName "Oakview Manor" "menu.pdf" "" Sample.noonAndHalf Sample.uuidA.
Proof. split; [discriminate | reflexivity]. Qed.

(** C1 (amended): for one venue, category and original filename, two calls
    give the same object name exactly when their 19-character timestamps and
    their 8-character suffixes agree; for instants with a four-digit year the
    timestamps agree exactly when the instants lie in the same UTC second.
    So distinct suffixes always give distinct names, and so do instants of
    different seconds, while instants within one second do not. *)
Theorem generateFileName_distinct
    (venue original category : string) (now1 now2 : Date) (uuid1 uuid2 : string)
    (V1 : Spec.validDate now1 = true) (V2 : Spec.validDate now2 = true) :
  (generateFileName venue original category now1 uuid1
   = generateFileName venue original category now2 uuid2
   <-> timestampOf now1 = timestampOf now2 /\ slice0 8 uuid1 = slice0 8 uuid2)
  /\ (timestampOf now1 = timestampOf now2 <-> Spec.sameSecond now1 now2 = true).
Proof.
  split; [apply generateFileName_eq_iff | now apply timestamp_same_second].
Qed.

Lemma generateFileName_distinct_witness :
  Spec.validDate Sample.noon = true /\ Spec.validDate Sample.noonAndHalf = true
  /\ (generateFileName "Oakview Manor" "menu.pdf" "" Sample.noon Sample.uuidA
      = generateFileName "Oakview Manor" "menu.pdf" "" Sample.noonAndHalf Sample.uuidB
      <-> timestampOf Sample.noon = timestampOf Sample.noonAndHalf
          /\ slice0 8 Sample.uuidA = slice0 8 Sample.uuidB)
  /\ (timestampOf Sample.noon = timestampOf Sample.noonAndHalf
      <-> Spec.sameSecond Sample.noon Sample.noonAndHalf = true).
Proof.
  split; [reflexivity|]. split; [reflexivity|].
  apply (generateFileName_distinct "Oakview Manor" "menu.pdf" ""
           Sample.noon Sample.noonAndHalf Sample.uuidA Sample.uuidB);
    reflexivity.
Defined.

(** C2: the venue-name sanitizer is idempotent. *)
Theorem sanitizeVenueName_idempotent (x : string) :
  sanitizeVenueName (sanitizeVenueName x) = sanitizeVenueName x.
Proof. apply sanitize_fixes_slug, sanitize_slug. Qed.

(** C3, as stated, fails: a tab survives the stripping step and becomes a
    hyphen, where the stated algorithm (space only) removes it. *)
Lemma sanitizeVenueName_keeps_tab :
  sanitizeVenueName Sample.tabbed = "a-b"
  /\ Spec.sanitize Sample.tabbed = "ab"
  /\ sanitizeVenueName Sample.tabbed <> Spec.sanitize Sample.tabbed.
Proof. split; [reflexivity | split; [reflexivity | discriminate]]. Qed.

(** C3 (amended): the sanitizer computes the five steps with the stripping
    step keeping lower-case letters, digits, hyphens and every white-space
    character (not the space alone); the two examples hold. *)
Theorem sanitizeVenueName_algorithm :
  (forall x, sanitizeVenueName x = Spec.sanitizeWs x)
  /\ sanitizeVenueName "Grand Ballroom!!" = "grand-ballroom"
  /\ sanitizeVenueName "  --Multi   Space--  " = "multi-space".
Proof. split; [apply sanitize_refines | split; reflexivity]. Qed.

(** C4: the sanitizer returns, for every input, the empty string or a string
    matching [^[a-z0-9]+(-[a-z0-9]+)*$]. *)
Theorem sanitizeVenueName_shape (x : string) :
  sanitizeVenueName x = EmptyString
  \/ Spec.matches Spec.slugRegex (sanitizeVenueName x).
Proof. apply slug_matches, sanitize_slug. Qed.

(** C6: the folder is the sanitized venue alone for an empty category, and
    the sanitized venue, a slash and the sanitized category otherwise. *)
Theorem generateFolderPath_contract :
  (forall venue, generateFolderPath venue "" = sanitizeVenueName venue)
  /\ (forall venue c r,
        generateFolderPath venue (String c r)
        = sanitizeVenueName venue ++ "/" ++ Spec.sanitizeCategory (Some (String c r)))
  /\ generateFolderPath "The Grand Hotel" "" = "the-grand-hotel"
  /\ generateFolderPath "The Grand Hotel" "Ceremony" = "the-grand-hotel/ceremony".
Proof. repeat split. Qed.

(** C7: the advisory class is "image" exactly for types starting with
    [image/], "document" exactly for the other types that equal
    [application/pdf] or contain "document" or "word", and "other" for the
    rest. *)
Theorem getFileCategory_classes (mimeType : string) :
  let documentLike :=
    mimeType = "application/pdf"
    \/ Spec.hasSubstring "document" mimeType
    \/ Spec.hasSubstring "word" mimeType in
  (getFileCategory mimeType = "image" <-> Spec.hasPrefix "image/" mimeType)
  /\ (getFileCategory mimeType = "document"
      <-> ~ Spec.hasPrefix "image/" mimeType /\ documentLike)
  /\ (getFileCategory mimeType = "other"
      <-> ~ Spec.hasPrefix "image/" mimeType /\ ~ documentLike)
  /\ getFileCategory "image/png" = "image"
  /\ getFileCategory "application/pdf" = "document"
  /\ getFileCategory "text/csv" = "other".
Proof.
  cbv zeta. unfold getFileCategory.
  rewrite <- startsWith_prefix, <- !includes_substring.
  rewrite <- (String.eqb_eq mimeType "application/pdf").
  destruct (startsWith "image/" mimeType),
    (String.eqb mimeType "application/pdf"),
    (includes "document" mimeType), (includes "word" mimeType);
    simpl; intuition (try discriminate; try congruence).
Qed.

Lemma oakview_name now uuid :
  Spec.validDate now = true ->
  generateFileName "Oakview Manor" "menu.pdf" "" now uuid
  = "oakview-manor_" ++ Spec.secondStamp now ++ "_" ++ slice0 8 uuid ++ ".pdf".
Proof.
  intro V. rewrite generateFileName_parts.
  rewrite (timestampOf_stamp now (validDate_year now V)).
  replace (sanitizeVenueName "Oakview Manor") with "oakview-manor" by reflexivity.
  replace (toLowerCase (extname "menu.pdf")) with ".pdf" by reflexivity.
  reflexivity.
Qed.

Lemma secondStamp_digits d : countStr isDigit (Spec.secondStamp d) = 14.
Proof.
  unfold Spec.secondStamp.
  repeat rewrite countStr_app.
  repeat rewrite (countStr_all isDigit (padDigits _ _) (padDigits_digits _ _)).
  repeat rewrite padDigits_length. reflexivity.
Qed.

Lemma digit_not_colonOrDot c : isDigit c = true -> Spec.isColonOrDot c = false.
Proof.
  destruct c as [[|] [|] [|] [|] [|] [|] [|] [|]]; vm_compute; congruence.
Qed.

Lemma secondStamp_separators d : countStr Spec.isColonOrDot (Spec.secondStamp d) = 0.
Proof.
  unfold Spec.secondStamp.
  repeat rewrite countStr_app.
  repeat rewrite (countStr_none isDigit Spec.isColonOrDot (padDigits _ _)
                    digit_not_colonOrDot (padDigits_digits _ _)).
  reflexivity.
Qed.

Lemma uploadLoop_single w bucketName venue category file t :
  fst (Upload.uploadLoop w bucketName venue category [file] t)
  = [fst (Upload.uploadOne w bucketName venue category file t)].
Proof.
  rewrite uploadLoop_cons.
  destruct (Upload.uploadOne w bucketName venue category file t) as [r t1].
  reflexivity.
Qed.

(** C5: for the venue "Oakview Manor", no category and the file "menu.pdf",
    the folder is "oakview-manor" and the object name is
    [oakview-manor_<timestamp>_<id>.pdf], where the timestamp is the
    19-character [YYYY-MM-DDTHH-MM-SS] form of the current instant (14
    digits, no colon, no period) and the id has 8 characters; an accepted
    upload reports that name under the folder. *)
Theorem oakview_upload_name
    (w : World.World) (t : World.Ticks) (bucketName : string) (file : Upload.File)
    (F : Upload.originalname file = "menu.pdf")
    (V : Spec.validDate (World.clock w (World.dates t)) = true)
    (U : 8 <= String.length (World.uuidv4 w (World.uuids t)))
    (R : Spec.replyFor w bucketName "Oakview Manor" "" file t = World.UploadData) :
  let now := World.clock w (World.dates t) in
  let uuid := World.uuidv4 w (World.uuids t) in
  let ts := Spec.secondStamp now in
  let id := slice0 8 uuid in
  let objectName := "oakview-manor_" ++ ts ++ "_" ++ id ++ ".pdf" in
  generateFolderPath "Oakview Manor" "" = "oakview-manor"
  /\ generateFileName "Oakview Manor" "menu.pdf" "" now uuid = objectName
  /\ String.length ts = 19
  /\ countStr isDigit ts = 14
  /\ countStr Spec.isColonOrDot ts = 0
  /\ String.length id = 8
  /\ exists r,
       fst (Upload.uploadFilesToBucket w [file] bucketName "Oakview Manor" None t) = [r]
       /\ Upload.success r = true
       /\ Upload.fileName r = Some objectName
       /\ Upload.filePath r = Some ("oakview-manor/" ++ objectName).
Proof.
  cbv zeta.
  split; [reflexivity|].
  split; [now apply oakview_name|].
  split; [apply secondStamp_length|].
  split; [apply secondStamp_digits|].
  split; [apply secondStamp_separators|].
  split; [now apply slice0_length|].
  exists (fst (Upload.uploadOne w bucketName "Oakview Manor" "" file t)).
  split; [apply uploadLoop_single|].
  destruct (uploadOne_result w bucketName "Oakview Manor" "" file t) as (_ & S & K).
  cbv zeta in S, K. rewrite R in S. simpl in S.
  destruct (K S) as (K1 & K2 & _). rewrite F in K1, K2.
  rewrite (oakview_name _ _ V) in K1, K2.
  split; [exact S|]. split; [exact K1 | exact K2].
Qed.

Lemma oakview_upload_name_witness :
  exists r,
    fst (Upload.uploadFilesToBucket Sample.calm [Sample.menu] "menus"
           "Oakview Manor" None Sample.start) = [r]
    /\ Upload.success r = true
    /\ Upload.fileName r = Some "oakview-manor_2024-01-15T10-30-45_3f2504e0.pdf"
    /\ Upload.filePath r
       = Some "oakview-manor/oakview-manor_2024-01-15T10-30-45_3f2504e0.pdf".
Proof.
  refine (proj2 (proj2 (proj2 (proj2 (proj2 (proj2
    (oakview_upload_name Sample.calm Sample.start "menus" Sample.menu
       eq_refl eq_refl _ eq_refl))))))).
  simpl. lia.
Defined.

Example tokenOf_bearer :
  Auth.tokenOf (Auth.mkRequest (Some "Bearer s3cret") Auth.VUndefined)
  = Auth.VString "s3cret".
Proof. reflexivity. Qed.

Example tokenOf_query :
  Auth.tokenOf (Auth.mkRequest None (Auth.VString "s3cret")) = Auth.VString "s3cret".
Proof. reflexivity. Qed.

Example tokenOf_header_without_token :
  Auth.tokenOf (Auth.mkRequest (Some "Bearer") Auth.VUndefined) = Auth.VUndefined.
Proof. reflexivity. Qed.

Lemma truthy_nonempty s : truthy s = true <-> s <> EmptyString.
Proof. destruct s; simpl; split; congruence. Qed.

Lemma split_head s : exists t, Auth.split " " s = Spec.upToSpace s :: t.
Proof.
  induction s as [|c r [t IH]]; simpl; [now exists []|].
  destruct (Ascii.eqb c " "); [now eexists|].
  rewrite IH. now eexists.
Qed.

Lemma index1_split h :
  Auth.index1 (Auth.split " " h)
  = match Spec.afterFirstSpace h with
    | Some r => Auth.VString (Spec.upToSpace r)
    | None => Auth.VUndefined
    end.
Proof.
  induction h as [|c r IH]; simpl; [reflexivity|].
  destruct (split_head r) as [t E].
  destruct (Ascii.eqb c " ").
  - now rewrite E.
  - rewrite E in IH |- *. exact IH.
Qed.

Lemma queryWord_truthy q :
  match Spec.queryWord q with
  | None => Auth.truthyV q = false
  | Some v => v = q /\ Auth.truthyV q = true
  end.
Proof. destruct q as [|[|c r]|]; simpl; auto. Qed.

(** The token expression of the middleware computes the supplied token. *)
Lemma tokenOf_supplied req :
  match Spec.supplied req with
  | None => Auth.truthyV (Auth.tokenOf req) = false
  | Some v => Auth.tokenOf req = v /\ Auth.truthyV v = true
  end.
Proof.
  unfold Spec.supplied, Auth.tokenOf.
  pose proof (queryWord_truthy (Auth.queryToken req)) as Q.
  destruct (Auth.authorization req) as [h|].
  - destruct h as [|c r].
    + cbn. destruct (Spec.queryWord _) as [v|]; [destruct Q as [-> Q]|]; auto.
    + cbn [truthy]. rewrite index1_split. unfold Spec.headerWord.
      destruct (Spec.afterFirstSpace (String c r)) as [rest|].
      * destruct (Spec.upToSpace rest) as [|x word]; cbn [Auth.truthyV truthy].
        -- destruct (Spec.queryWord _) as [v|]; [destruct Q as [-> Q]|]; auto.
        -- auto.
      * cbn. destruct (Spec.queryWord _) as [v|]; [destruct Q as [-> Q]|]; auto.
  - cbn. destruct (Spec.queryWord _) as [v|]; [destruct Q as [-> Q]|]; auto.
Qed.

(** C8: the credential check answers MissingCredential when the request
    supplies no token (no word after the first space of the Authorization
    header and no non-empty query parameter); otherwise ServerMisconfigured
    when no secret is configured; otherwise InvalidCredential when the
    supplied token is not the secret; and lets the request through exactly
    when the supplied token is the configured secret.  The three errors are
    pairwise distinct. *)
Theorem authenticateToken_decision (req : Auth.Request) (accessToken : option string) :
  let outcome := Auth.authenticateToken req accessToken in
  (outcome = Spec.MissingCredential <-> Spec.supplied req = None)
  /\ (outcome = Spec.ServerMisconfigured
      <-> Spec.supplied req <> None /\ Spec.configured accessToken = false)
  /\ (outcome = Spec.InvalidCredential
      <-> Spec.supplied req <> None /\ Spec.configured accessToken = true
          /\ Spec.supplied req <> option_map Auth.VString accessToken)
  /\ (outcome = Auth.Next
      <-> Spec.configured accessToken = true
          /\ Spec.supplied req = option_map Auth.VString accessToken)
  /\ (outcome = Spec.MissingCredential \/ outcome = Spec.ServerMisconfigured
      \/ outcome = Spec.InvalidCredential \/ outcome = Auth.Next)
  /\ Spec.MissingCredential <> Spec.ServerMisconfigured
  /\ Spec.MissingCredential <> Spec.InvalidCredential
  /\ Spec.ServerMisconfigured <> Spec.InvalidCredential
  /\ Auth.authenticateToken (Auth.mkRequest None Auth.VUndefined) accessToken
     = Spec.MissingCredential
  /\ Auth.authenticateToken (Auth.mkRequest (Some "Bearer s3cret") Auth.VUndefined) None
     = Spec.ServerMisconfigured
  /\ Auth.authenticateToken (Auth.mkRequest None (Auth.VString "guess")) (Some "s3cret")
     = Spec.InvalidCredential
  /\ Auth.authenticateToken (Auth.mkRequest (Some "Bearer s3cret") Auth.VUndefined)
       (Some "s3cret")
     = Auth.Next.
Proof.
  cbv zeta.
  assert (C : forall o : Auth.Outcome,
             o = Auth.authenticateToken req accessToken ->
             (o = Spec.MissingCredential <-> Spec.supplied req = None)
             /\ (o = Spec.ServerMisconfigured
                 <-> Spec.supplied req <> None /\ Spec.configured accessToken = false)
             /\ (o = Spec.InvalidCredential
                 <-> Spec.supplied req <> None /\ Spec.configured accessToken = true
                     /\ Spec.supplied req <> option_map Auth.VString accessToken)
             /\ (o = Auth.Next
                 <-> Spec.configured accessToken = true
                     /\ Spec.supplied req = option_map Auth.VString accessToken)
             /\ (o = Spec.MissingCredential \/ o = Spec.ServerMisconfigured
                 \/ o = Spec.InvalidCredential \/ o = Auth.Next)).
  { intros o ->.
    pose proof (tokenOf_supplied req) as K.
    unfold Auth.authenticateToken.
    unfold Spec.MissingCredential, Spec.ServerMisconfigured, Spec.InvalidCredential.
    destruct (Spec.supplied req) as [v|].
    - destruct K as [-> T]. rewrite T. cbn [negb].
      destruct accessToken as [[|a secret]|];
        cbn [truthy negb Spec.configured option_map].
      + intuition (try discriminate; try congruence).
      + destruct v as [|tok|]; [discriminate T| |].
        * destruct (String.eqb_spec tok (String a secret)) as [->|N];
            intuition (try discriminate; try congruence).
        * intuition (try discriminate; try congruence).
      + intuition (try discriminate; try congruence).
    - rewrite K. cbn [negb].
      destruct accessToken as [[|a secret]|]; cbn [Spec.configured option_map truthy];
        intuition (try discriminate; try congruence). }
  destruct (C _ eq_refl) as (C1 & C2 & C3 & C4 & C5).
  split; [exact C1|]. split; [exact C2|]. split; [exact C3|].
  split; [exact C4|]. split; [exact C5|].
  split; [discriminate|]. split; [discriminate|]. split; [discriminate|].
  split; [reflexivity|]. split; [reflexivity|]. split; reflexivity.
Qed.

(** C9, as stated, fails for listing: when the listing of the first bucket
    comes back with an error, [GET /venues] still answers with success and
    the venues of the other buckets. *)
Lemma list_error_still_succeeds :
  World.storageList Sample.flaky 0 "photos" "" = World.ListError "Bucket not found"
  /\ fst (Venues.getVenues Sample.flaky Sample.buckets Sample.start)
     = Venues.VenueList ["oakview-manor"] 1.
Proof. split; reflexivity. Qed.

(** C9 (amended): an upload yields one result per file, and the result at a
    file's position has success=false exactly when that file's own remote
    call failed, whatever happened to its siblings; a failed remote removal
    on a known bucket makes the delete request fail with status 500; the
    two listing requests fail as a whole (status 500) only when a listing
    call throws, while a bucket whose listing returns an error counts as
    empty and the request still succeeds with what the other buckets hold. *)
Theorem upstream_failure_reporting
    (w : World.World) (b : Config.Buckets) (t : World.Ticks)
    (bucketName venue : string) (category : option string)
    (pre post : list Upload.File) (file : Upload.File)
    (venueName bucket fileName : string) :
  let c := match category with Some c => c | None => EmptyString end in
  let files := (pre ++ file :: post)%list in
  let rs := fst (Upload.uploadFilesToBucket w files bucketName venue category t) in
  (List.length rs = List.length files
   /\ exists r,
        nth_error rs (List.length pre) = Some r
        /\ Upload.originalName r = Upload.originalname file
        /\ Upload.success r
           = negb (Spec.uploadFailed
                     (Spec.replyFor w bucketName venue c file
                        (Spec.stateAfter w bucketName venue c pre t))))
  /\ (existsb (String.eqb bucket) (Config.values b) = true ->
      Spec.removeFailed
        (World.storageRemove w (World.calls t) bucket [venueName ++ "/" ++ fileName])
      = true ->
      exists message,
        fst (Venues.deleteFile w b venueName bucket fileName t)
        = Venues.Failed 500 "Delete failed" message)
  /\ (fst (Venues.getVenues w b t)
     = if existsb Spec.listThrown (Spec.listReplies w b "" t)
       then Venues.Failed 500 "Failed to fetch venues" "Unable to retrieve venue list"
       else
         let venueList :=
           Venues.sort
             (fold_left (fun acc r => Venues.addFolders (Spec.listed r) acc)
                (Spec.listReplies w b "" t) []) in
         Venues.VenueList venueList (List.length venueList))
  /\ fst (Venues.getVenueFiles w b venueName t)
     = if existsb Spec.listThrown (Spec.listReplies w b venueName t)
       then Venues.Failed 500 "Failed to fetch venue files"
              "Unable to retrieve files for this venue"
       else
         let reported bucketName k :=
           Spec.reportedFiles w bucketName venueName
             (World.storageList w (k + World.calls t) bucketName venueName) in
         let photos := reported (Config.PHOTOS b) 0 in
         let menus := reported (Config.MENUS b) 1 in
         let pricing := reported (Config.PRICING b) 2 in
         Venues.VenueFiles venueName
           [("photos", photos); ("menus", menus); ("pricing", pricing)]
           (List.length photos + List.length menus + List.length pricing).
Proof.
  cbv zeta. unfold Upload.uploadFilesToBucket.
  set (c := match category with Some c => c | None => EmptyString end).
  split; [|split; [intros B R; now apply deleteFile_failure
                  | split; [apply getVenues_closed | apply getVenueFiles_closed]]].
  split; [apply uploadLoop_length|].
  exists (fst (Upload.uploadOne w bucketName venue c file
                 (Spec.stateAfter w bucketName venue c pre t))).
  split; [apply uploadLoop_nth|].
  destruct (uploadOne_result w bucketName venue c file
              (Spec.stateAfter w bucketName venue c pre t)) as (H1 & H2 & _).
  split; [exact H1 | exact H2].
Qed.

Lemma upstream_failure_reporting_witness :
  (exists r,
     nth_error (fst (Upload.uploadFilesToBucket Sample.flaky
                       [Sample.menu; Sample.photo] "photos" "Oakview Manor" None
                       Sample.start)) 0 = Some r
     /\ Upload.originalName r = "menu.pdf"
     /\ Upload.success r = false)
  /\ (exists message,
        fst (Venues.deleteFile Sample.flaky Sample.buckets "oakview-manor" "menus"
               "menu.pdf" Sample.start)
        = Venues.Failed 500 "Delete failed" message)
  /\ fst (Venues.getVenues Sample.flaky Sample.buckets Sample.start)
     = Venues.VenueList ["oakview-manor"] 1.
Proof.
  destruct (upstream_failure_reporting Sample.flaky Sample.buckets Sample.start
              "photos" "Oakview Manor" None [] [Sample.photo] Sample.menu
              "oakview-manor" "menus" "menu.pdf")
    as ((_ & r & N & O & S) & D & V & _).
  split; [|split; [exact (D eq_refl eq_refl) | exact V]].
  exists r. split; [exact N|]. split; [exact O | exact S].
Defined.

(** C10: the photos response carries, at request level, the supplied
    category when it is non-empty and "general" otherwise, while every
    successful per-file result carries the advisory class of its own MIME
    type, one of "image", "document" and "other", whatever the request's
    category is. *)
Theorem photos_response_categories
    (w : World.World) (b : Config.Buckets) (t : World.Ticks)
    (initial : ascii) (others : string) (category : option string)
    (files : list Upload.File) :
  let venue := String initial others in
  (exists message uploads,
     fst (Upload.postPhotos w b (Upload.mkBody (Some venue) category) files t)
     = Upload.Uploaded message uploads (Config.PHOTOS b) venue
         (Some (Spec.requestCategory category))
     /\ Forall2
          (fun file r =>
             Upload.success r = true ->
             Upload.resultCategory r = Some (getFileCategory (Upload.mimetype file)))
          files uploads)
  /\ (forall mimeType,
        In (getFileCategory mimeType) ["image"; "document"; "other"])
  /\ match fst (Upload.postPhotos Sample.calm Sample.buckets
                  (Upload.mkBody (Some "Oakview Manor") (Some "Ceremony"))
                  [Sample.photo] Sample.start) with
     | Upload.Uploaded _ [r] _ _ requestLevel =>
         requestLevel = Some "Ceremony" /\ Upload.resultCategory r = Some "image"
     | _ => False
     end.
Proof.
  cbv zeta. split; [|split].
  - unfold Upload.postPhotos, World.bind, World.ret. cbn [Upload.venueName Upload.category truthy negb].
    pose proof (uploadLoop_categories w (Config.PHOTOS b) (String initial others)
                  match category with Some c => c | None => EmptyString end files t) as C.
    unfold Upload.uploadFilesToBucket.
    destruct (Upload.uploadLoop w (Config.PHOTOS b) (String initial others) _ files t)
      as [rs t1].
    cbn [fst] in *.
    eexists _, rs. split.
    + f_equal. f_equal. destruct category as [[|x y]|]; reflexivity.
    + revert C. apply Forall2_impl. intros f r [_ H]. exact H.
  - intro m. unfold getFileCategory.
    destruct (startsWith "image/" m); [simpl; auto|].
    destruct (_ || _); simpl; auto.
  - vm_compute. split; reflexivity.
Qed.

End Claims.

(** * Further properties of the code *)

(** ** Sanitized names and folders *)

Section SanitizerMore.
Import JS Shape Props FileUtils.

Lemma filter_filter (p q : ascii -> bool) s :
  (forall c, p c = true -> q c = true) ->
  filterStr p (filterStr q s) = filterStr p s.
Proof.
  intro I. induction s as [|c r IH]; simpl; [reflexivity|].
  destruct (q c) eqn:Q; simpl.
  - now rewrite IH.
  - destruct (p c) eqn:P; [|exact IH]. rewrite (I _ P) in Q. discriminate.
Qed.

Lemma filter_replaceRuns (p q : ascii -> bool) rep b s :
  (forall c, q c = true -> p c = false) -> p rep = false ->
  filterStr p (replaceRunsFrom q rep b s) = filterStr p s.
Proof.
  intros I R. revert b. induction s as [|c r IH]; intro b; simpl; [reflexivity|].
  destruct (q c) eqn:Q.
  - rewrite (I _ Q). destruct b; simpl; [|rewrite R]; apply IH.
  - simpl. now rewrite IH.
Qed.

Lemma filter_removeLeading p s :
  (forall c, isHyphen c = true -> p c = false) ->
  filterStr p (removeLeadingHyphen s) = filterStr p s.
Proof.
  intro I. destruct s as [|c r]; simpl; [reflexivity|].
  destruct (isHyphen c) eqn:E; [|reflexivity]. now rewrite (I _ E).
Qed.

Lemma filter_removeTrailing p s :
  (forall c, isHyphen c = true -> p c = false) ->
  filterStr p (removeTrailingHyphen s) = filterStr p s.
Proof.
  intro I. induction s as [|c|c d r IH] using string_ind2; [reflexivity| |].
  - simpl. destruct (isHyphen c) eqn:E; [|reflexivity]. now rewrite (I _ E).
  - rewrite removeTrailing_cons.
    change (filterStr p (String c ?t))
      with (if p c then String c (filterStr p t) else filterStr p t).
    now rewrite IH.
Qed.

Lemma ws_not_alnum c : isWhiteSpace c = true -> isAlnum c = false.
Proof. destruct c as [[|] [|] [|] [|] [|] [|] [|] [|]]; vm_compute; congruence. Qed.

Lemma hyphen_not_alnum c : isHyphen c = true -> isAlnum c = false.
Proof. destruct c as [[|] [|] [|] [|] [|] [|] [|] [|]]; vm_compute; congruence. Qed.

Lemma alnum_keep c : isAlnum c = true -> venueKeep c = true.
Proof. destruct c as [[|] [|] [|] [|] [|] [|] [|] [|]]; vm_compute; congruence. Qed.

Lemma sanitize_alnum_content x :
  filterStr isAlnum (sanitizeVenueName x) = filterStr isAlnum (toLowerCase x).
Proof.
  unfold sanitizeVenueName, replaceRuns, removeNotIn.
  rewrite (filter_removeTrailing _ _ hyphen_not_alnum).
  rewrite (filter_removeLeading _ _ hyphen_not_alnum).
  rewrite (filter_replaceRuns isAlnum isHyphen "-" false _ hyphen_not_alnum eq_refl).
  rewrite (filter_replaceRuns isAlnum isWhiteSpace "-" false _ ws_not_alnum eq_refl).
  apply filter_filter, alnum_keep.
Qed.

Lemma slug_without_alnum s :
  slug s = true -> filterStr isAlnum s = EmptyString -> s = EmptyString.
Proof.
  intros H F. apply slug_parts in H as (A & _ & Hd & _).
  destruct s as [|c r]; [reflexivity|]. simpl in A, Hd, F.
  apply andb_true_iff in A as [Hc _].
  rewrite (slugChar_not_hyphen_alnum c Hc Hd) in F. discriminate.
Qed.

Lemma filterStr_length p s : String.length (filterStr p s) <= String.length s.
Proof.
  induction s as [|c r IH]; simpl; [lia|]. destruct (p c); simpl; lia.
Qed.

Lemma replaceRuns_length p rep b s :
  String.length (replaceRunsFrom p rep b s) <= String.length s.
Proof.
  revert b. induction s as [|c r IH]; intro b; simpl; [lia|].
  destruct (p c); [destruct b|]; simpl;
    [specialize (IH true) | specialize (IH true) | specialize (IH false)]; lia.
Qed.

Lemma removeLeading_length s :
  String.length (removeLeadingHyphen s) <= String.length s.
Proof. destruct s as [|c r]; simpl; [lia|]. destruct (isHyphen c); simpl; lia. Qed.

Lemma removeTrailing_length s :
  String.length (removeTrailingHyphen s) <= String.length s.
Proof.
  induction s as [|c|c d r IH] using string_ind2; [simpl; lia| |].
  - simpl. destruct (isHyphen c); simpl; lia.
  - rewrite removeTrailing_cons.
    change (String.length (String c ?t)) with (S (String.length t)).
    change (String.length (String c ?t)) with (S (String.length t)) in IH.
    lia.
Qed.

(** X1: the strings the sanitizer leaves unchanged are exactly the slugs. *)
Theorem sanitizeVenueName_fixed_points (s : string) :
  sanitizeVenueName s = s <-> slug s = true.
Proof.
  split.
  - intro E. rewrite <- E. apply sanitize_slug.
  - apply sanitize_fixes_slug.
Qed.

(** X2: the letters and digits of the sanitized name are those of the
    lower-cased input, in the same order: sanitizing only removes other
    characters and places hyphens. *)
Theorem sanitizeVenueName_keeps_alphanumerics (x : string) :
  filterStr isAlnum (sanitizeVenueName x) = filterStr isAlnum (toLowerCase x).
Proof. apply sanitize_alnum_content. Qed.

(** X3: the sanitized name is empty exactly when no character of the input
    lower-cases to a letter or digit. *)
Theorem sanitizeVenueName_empty_iff (x : string) :
  sanitizeVenueName x = EmptyString
  <-> allStr (fun c => negb (isAlnum (toLowerChar c))) x = true.
Proof.
  assert (K : forall y, filterStr isAlnum (toLowerCase y) = EmptyString
                        <-> allStr (fun c => negb (isAlnum (toLowerChar c))) y = true).
  { induction y as [|c r IH]; simpl; [tauto|].
    destruct (isAlnum (toLowerChar c)); simpl; [split; discriminate | exact IH]. }
  rewrite <- K, <- sanitize_alnum_content. split.
  - intros ->. reflexivity.
  - apply slug_without_alnum, sanitize_slug.
Qed.

(** X4: the sanitized name is never longer than the input. *)
Theorem sanitizeVenueName_length (x : string) :
  String.length (sanitizeVenueName x) <= String.length x.
Proof.
  unfold sanitizeVenueName, replaceRuns, removeNotIn, toLowerCase.
  eapply Nat.le_trans; [apply removeTrailing_length|].
  eapply Nat.le_trans; [apply removeLeading_length|].
  eapply Nat.le_trans; [apply replaceRuns_length|].
  eapply Nat.le_trans; [apply replaceRuns_length|].
  eapply Nat.le_trans; [apply filterStr_length|].
  now rewrite mapStr_length.
Qed.

Lemma slugChar_folderChar c : isSlugChar c = true -> isFolderChar c = true.
Proof. unfold isFolderChar. now intros ->. Qed.

Lemma alnum_folderChar c : isAlnum c = true -> isFolderChar c = true.
Proof. unfold isFolderChar, isSlugChar. now intros ->. Qed.

Lemma slugChar_notSlash c : isSlugChar c = true -> isSlash c = false.
Proof. destruct c as [[|] [|] [|] [|] [|] [|] [|] [|]]; vm_compute; congruence. Qed.

Lemma alnum_notSlash c : isAlnum c = true -> isSlash c = false.
Proof. destruct c as [[|] [|] [|] [|] [|] [|] [|] [|]]; vm_compute; congruence. Qed.

Lemma sanitize_slugChars x : allStr isSlugChar (sanitizeVenueName x) = true.
Proof. now destruct (slug_parts _ (sanitize_slug x)). Qed.

Lemma category_alnum c : allStr isAlnum (sanitizedCategoryOf c) = true.
Proof. apply allStr_filter. Qed.

Lemma generateFolderPath_shape_aux (venueName category : string) :
  allStr isFolderChar (generateFolderPath venueName category) = true
  /\ countStr isSlash (generateFolderPath venueName category)
     = (if truthy category then 1 else 0).
Proof.
  unfold generateFolderPath.
  pose proof (sanitize_slugChars venueName) as V.
  pose proof (category_alnum category) as C.
  destruct (truthy category).
  - split.
    + rewrite !allStr_app.
      rewrite (allStr_impl _ _ _ slugChar_folderChar V),
              (allStr_impl _ _ _ alnum_folderChar C). reflexivity.
    + rewrite !countStr_app.
      rewrite (countStr_none _ _ _ slugChar_notSlash V),
              (countStr_none _ _ _ alnum_notSlash C). reflexivity.
  - split.
    + exact (allStr_impl _ _ _ slugChar_folderChar V).
    + exact (countStr_none _ _ _ slugChar_notSlash V).
Qed.

(** X5: a folder path consists of lower-case letters, digits, hyphens and
    slashes only, and has exactly one slash when a category is given and none
    otherwise. *)
Theorem generateFolderPath_shape (venueName category : string) :
  allStr isFolderChar (generateFolderPath venueName category) = true
  /\ countStr isSlash (generateFolderPath venueName category)
     = (if truthy category then 1 else 0).
Proof. apply generateFolderPath_shape_aux. Qed.

End SanitizerMore.

(** ** File extensions *)

Section Extensions.
Import JS Shape Props FileUtils.

Lemma scan_slash_skip c rest i st :
  isSlash c = true -> matchedSlash st = true ->
  extnameScan (c :: rest) i st = extnameScan rest (i - 1) st.
Proof.
  intros S M. simpl. unfold isSlash in S. now rewrite S, M.
Qed.

Lemma scan_slash_break c rest i st :
  isSlash c = true -> matchedSlash st = false ->
  extnameScan (c :: rest) i st
  = mkExtScan (startDot st) (i + 1) (endIdx st) (matchedSlash st) (preDotState st).
Proof.
  intros S M. simpl. unfold isSlash in S. now rewrite S, M.
Qed.

Lemma isDot_char c : isDot c = true -> c = "."%char.
Proof. destruct c as [[|] [|] [|] [|] [|] [|] [|] [|]]; vm_compute; congruence. Qed.

Ltac scan_fields :=
  cbn [startDot startPart endIdx matchedSlash preDotState
       List.app List.length forallb negb] in *.

Lemma scan_plain c rest i s st :
  (0 <= i)%Z -> isSlash c = false -> scanned (i + 1) s st ->
  exists st2,
    extnameScan (c :: rest) i st = extnameScan rest (i - 1) st2
    /\ scanned i (c :: s) st2 /\ startPart st2 = startPart st.
Proof.
  intros I S [_ H]. simpl extnameScan.
  change (code c =? 47)%N with (isSlash c). rewrite S.
  change (code c =? 46)%N with (isDot c).
  assert (NS : notSlash c = true) by (unfold notSlash; now rewrite S).
  destruct st as [sd sp e ms pd]. scan_fields.
  destruct H as [(He & Hd & Hm & Hp & Hs) | (body & tl & Es & Ht & Hb & Hne & Hm & He & H)].
  - (* the first character that is not a trailing slash *)
    subst e sd pd. change (-1 =? -1)%Z with true. scan_fields.
    change (-1 =? -1)%Z with true. scan_fields.
    destruct (isDot c) eqn:D; scan_fields;
      eexists; (split; [reflexivity|]); (split; [|reflexivity]);
      (split; [exact I|]); right; exists [c], s; scan_fields; rewrite NS;
      (split; [reflexivity|]); (split; [exact Hs|]); (split; [reflexivity|]);
      (split; [discriminate|]); (split; [reflexivity|]); (split; [lia|]).
    + right. exists [], []. apply isDot_char in D. subst c.
      scan_fields. repeat split; lia.
    + left. unfold notDot. rewrite D. auto.
  - assert (E1 : (e =? -1)%Z = false) by (apply Z.eqb_neq; lia).
    rewrite E1. subst ms. scan_fields.
    assert (B : (c :: s = (c :: body) ++ tl)%list /\ forallb isSlash tl = true
                /\ forallb notSlash (c :: body) = true /\ c :: body <> []
                /\ e = (i + Z.of_nat (List.length (c :: body)))%Z).
    { subst s. scan_fields. rewrite NS, Hb. repeat split; auto; try discriminate. lia. }
    destruct B as (B1 & B2 & B3 & B4 & B5).
    destruct H as [(Hd & Hp & Hn) | (a & b & Eb & Hn & Hd & Hp)].
    + (* no period read so far *)
      subst sd pd. change (-1 =? -1)%Z with true. scan_fields.
      destruct (isDot c) eqn:D; scan_fields;
        eexists; (split; [reflexivity|]); (split; [|reflexivity]);
        (split; [exact I|]); right; exists (c :: body), tl;
        (split; [exact B1|]); (split; [exact B2|]); (split; [exact B3|]);
        (split; [exact B4|]); (split; [reflexivity|]); (split; [exact B5|]).
      * right. exists [], body. apply isDot_char in D. subst c.
        scan_fields. repeat split; auto; lia.
      * left. scan_fields. unfold notDot at 1. rewrite D. auto.
    + (* the last period is known: only [preDotState] moves *)
      assert (E2 : (sd =? -1)%Z = false) by (apply Z.eqb_neq; lia).
      rewrite E2. scan_fields.
      assert (A : body = (a ++ "."%char :: b)%list
                  -> (c :: body = (c :: a) ++ "."%char :: b)%list)
        by (intros ->; reflexivity).
      destruct (isDot c) eqn:D; [destruct (pd =? 1)%Z eqn:P|]; scan_fields;
        eexists; (split; [reflexivity|]); (split; [|reflexivity]);
        (split; [exact I|]); right; exists (c :: body), tl;
        (split; [exact B1|]); (split; [exact B2|]); (split; [exact B3|]);
        (split; [exact B4|]); (split; [reflexivity|]); (split; [exact B5|]);
        right; exists (c :: a), b;
        (split; [exact (A Eb)|]); (split; [exact Hn|]);
        scan_fields; (split; [lia|]); rewrite D; try reflexivity.
      now apply Z.eqb_eq in P.
Qed.

Lemma isSlash_char c : isSlash c = true -> c = "/"%char.
Proof. destruct c as [[|] [|] [|] [|] [|] [|] [|] [|]]; vm_compute; congruence. Qed.

Lemma scanned_startPart n s st sp :
  scanned n s st ->
  scanned n s (mkExtScan (startDot st) sp (endIdx st) (matchedSlash st) (preDotState st)).
Proof. destruct st. exact (fun H => H). Qed.

(** The scan, started on what is left of the path, ends with the path split
    into what it did not need to read and the part [scanned] describes. *)
Lemma scan_inv revChars :
  forall s st,
    startPart st = 0%Z ->
    scanned (Z.of_nat (List.length revChars)) s st ->
    let st' := extnameScan revChars (Z.of_nat (List.length revChars) - 1) st in
    exists pre s',
      (rev revChars ++ s = pre ++ s')%list
      /\ (pre = [] \/ exists p0, pre = (p0 ++ ["/"%char])%list)
      /\ scanned (Z.of_nat (List.length pre)) s' st'
      /\ startPart st' = Z.of_nat (List.length pre).
Proof.
  induction revChars as [|c rest IH]; intros s st SP H; cbv zeta.
  - exists [], s. simpl. auto.
  - replace (Z.of_nat (List.length (c :: rest)) - 1)%Z
      with (Z.of_nat (List.length rest)) by (cbn [List.length]; lia).
    assert (R : (rev (c :: rest) ++ s = rev rest ++ c :: s)%list).
    { cbn [rev]. now rewrite <- List.app_assoc. }
    rewrite R.
    destruct (isSlash c) eqn:S; [destruct (matchedSlash st) eqn:M|].
    + (* a trailing slash: skipped *)
      rewrite (scan_slash_skip c rest _ st S M).
      apply IH; [exact SP|].
      destruct H as [H0 [(He & Hd & _ & Hp & Hs) | (body & tl & _ & _ & _ & _ & Hm & _)]];
        [|congruence].
      split; [lia|]. left. cbn [forallb]. rewrite S, Hs. auto.
    + (* the slash before the last component: the scan stops *)
      rewrite (scan_slash_break c rest _ st S M).
      exists (rev rest ++ [c])%list, s.
      assert (L : Z.of_nat (List.length (rev rest ++ [c])) = (Z.of_nat (List.length rest) + 1)%Z).
      { rewrite List.length_app, List.length_rev. cbn [List.length]. lia. }
      split; [now rewrite <- List.app_assoc|].
      split; [right; exists (rev rest); now rewrite (isSlash_char c S)|].
      rewrite L. split; [|cbn [startPart]; lia].
      apply scanned_startPart.
      replace (Z.of_nat (List.length rest) + 1)%Z
        with (Z.of_nat (List.length (c :: rest))) by (cbn [List.length]; lia).
      exact H.
    + destruct (scan_plain c rest (Z.of_nat (List.length rest)) s st) as (st2 & E & H2 & SP2);
        [lia | exact S | |].
      { replace (Z.of_nat (List.length rest) + 1)%Z
          with (Z.of_nat (List.length (c :: rest))) by (cbn [List.length]; lia).
        exact H. }
      rewrite E. apply IH; [congruence | exact H2].
Qed.

Lemma str_app (x y : list ascii) :
  string_of_list_ascii (x ++ y) = string_of_list_ascii x ++ string_of_list_ascii y.
Proof. induction x as [|c x IH]; simpl; [reflexivity | now rewrite IH]. Qed.

Lemma str_length (l : list ascii) :
  String.length (string_of_list_ascii l) = List.length l.
Proof. induction l as [|c l IH]; simpl; [reflexivity | now rewrite IH]. Qed.

Lemma chars_length (s : string) :
  List.length (list_ascii_of_string s) = String.length s.
Proof. induction s as [|c r IH]; simpl; [reflexivity | now rewrite IH]. Qed.

Lemma allStr_chars p (l : list ascii) :
  allStr p (string_of_list_ascii l) = forallb p l.
Proof. induction l as [|c l IH]; simpl; [reflexivity | now rewrite IH]. Qed.

Lemma forallb_chars p (s : string) :
  forallb p (list_ascii_of_string s) = allStr p s.
Proof. induction s as [|c r IH]; simpl; [reflexivity | now rewrite IH]. Qed.

Lemma dropStr_app (x y : string) : dropStr (String.length x) (x ++ y) = y.
Proof. induction x as [|c x IH]; simpl; [now destruct y | exact IH]. Qed.

(** The extension of a slash-free component split at its last period. *)
Lemma slice_middle (pre a b tl : list ascii) :
  slice (List.length pre + List.length a)
        (List.length pre + List.length a + 1 + List.length b)
        (string_of_list_ascii (pre ++ (a ++ "."%char :: b) ++ tl))
  = String "." (string_of_list_ascii b).
Proof.
  unfold slice.
  replace (List.length pre + List.length a + 1 + List.length b
           - (List.length pre + List.length a))
    with (S (List.length b)) by lia.
  replace (pre ++ (a ++ "."%char :: b) ++ tl)%list
    with ((pre ++ a) ++ ("."%char :: b) ++ tl)%list
    by (now rewrite <- !List.app_assoc).
  rewrite str_app.
  replace (List.length pre + List.length a)
    with (String.length (string_of_list_ascii (pre ++ a)))
    by (now rewrite str_length, List.length_app).
  rewrite dropStr_app, str_app.
  apply slice0_app. simpl. now rewrite str_length.
Qed.

Ltac decide_zeqb :=
  repeat match goal with
         | |- context [(?x =? ?y)%Z] =>
             first [ rewrite (proj2 (Z.eqb_eq x y)) by lia
                   | rewrite (proj2 (Z.eqb_neq x y)) by lia ]
         end.

(** What [path.extname] returns, in terms of the path: the path is some
    prefix that is empty or ends in a slash, a slash-free last component
    [body], and trailing slashes; the result is read off [body] at its last
    period. *)
Lemma extname_cases path :
  exists pre body tl,
    list_ascii_of_string path = (pre ++ body ++ tl)%list
    /\ (pre = [] \/ exists p0, pre = (p0 ++ ["/"%char])%list)
    /\ forallb isSlash tl = true /\ forallb notSlash body = true
    /\ ((forallb notDot body = true /\ extname path = EmptyString)
        \/ exists a b,
             body = (a ++ "."%char :: b)%list /\ forallb notDot b = true
             /\ extname path
                = match a with
                  | [] => EmptyString
                  | c :: a' =>
                      if isDot c && Nat.eqb (List.length a') 0
                         && Nat.eqb (List.length b) 0
                      then EmptyString
                      else String "." (string_of_list_ascii b)
                  end).
Proof.
  set (l := list_ascii_of_string path).
  destruct (scan_inv (rev l) [] (mkExtScan (-1) 0 (-1) true 0) eq_refl)
    as (pre & s' & E & P & H & SP).
  { split; [lia|]. left. repeat split. }
  rewrite List.rev_involutive, List.app_nil_r in E.
  rewrite List.length_rev in H, SP. unfold l in H, SP. rewrite chars_length in H, SP.
  fold l in H, SP.
  unfold extname. fold l.
  set (st := extnameScan (rev l) (Z.of_nat (String.length path) - 1)
               (mkExtScan (-1) 0 (-1) true 0)) in *.
  destruct st as [sd sp e ms pd]. scan_fields.
  destruct H as [N [(He & Hd & Hm & Hp & Hs) | (body & tl & Es & Ht & Hb & Hne & Hm & He & H)]];
    scan_fields.
  - exists pre, [], s'. subst sd. cbn. repeat split; auto.
  - exists pre, body, tl. subst s'.
    split; [exact E|]. split; [exact P|]. split; [exact Ht|]. split; [exact Hb|].
    destruct H as [(Hd & Hp & Hn) | (a & b & Eb & Hn & Hd & Hp)]; scan_fields.
    + left. subst sd. auto.
    + right. exists a, b. split; [exact Eb|]. split; [exact Hn|].
      assert (Lb : List.length body = List.length a + 1 + List.length b).
      { subst body. rewrite List.length_app. cbn [List.length]. lia. }
      destruct a as [|c a'].
      * subst pd. cbn [List.length] in *. decide_zeqb. reflexivity.
      * assert (S1 : Z.to_nat sd = List.length pre + List.length (c :: a')) by lia.
        assert (S2 : Z.to_nat e
                     = List.length pre + List.length (c :: a') + 1 + List.length b) by lia.
        assert (F : slice (Z.to_nat sd) (Z.to_nat e) path
                    = String "." (string_of_list_ascii b)).
        { rewrite S1, S2, <- (string_of_list_ascii_of_string path). fold l.
          rewrite E, Eb. apply slice_middle. }
        rewrite F. clear F S1 S2.
        cbn [List.length] in *.
        destruct (isDot c); subst pd; destruct a' as [|x a'']; destruct b as [|y b'];
          cbn [List.length] in *; decide_zeqb; reflexivity.
Qed.

Lemma forallb_app_true {A} (p : A -> bool) x y :
  forallb p (x ++ y) = true -> forallb p x = true /\ forallb p y = true.
Proof. rewrite List.forallb_app, andb_true_iff. auto. Qed.

Lemma extname_shape path :
  extname path = EmptyString
  \/ exists e, extname path = String "." e /\ allStr plain e = true.
Proof.
  destruct (extname_cases path) as (pre & body & tl & _ & _ & _ & Hb & H).
  destruct H as [[_ H] | (a & b & Eb & Hn & H)]; [now left|].
  destruct a as [|c a']; [now left|].
  destruct (isDot c && _ && _); [now left | right].
  exists (string_of_list_ascii b). split; [exact H|].
  rewrite allStr_chars. subst body.
  apply forallb_app_true in Hb as [_ Hb]. cbn [forallb] in Hb.
  apply andb_true_iff in Hb as [_ Hb].
  unfold plain. clear -Hn Hb.
  induction b as [|x b IH]; [reflexivity|]. cbn [forallb] in *.
  apply andb_true_iff in Hn as [-> Hn]. apply andb_true_iff in Hb as [-> Hb].
  now rewrite IH.
Qed.

Lemma extname_dotless path : allStr notDot path = true -> extname path = EmptyString.
Proof.
  intro D.
  destruct (extname_cases path) as (pre & body & tl & E & _ & _ & _ & H).
  destruct H as [[_ H] | (a & b & Eb & _ & _)]; [exact H|].
  rewrite <- forallb_chars, E, Eb in D.
  apply forallb_app_true in D as [_ D]. apply forallb_app_true in D as [D _].
  apply forallb_app_true in D as [_ D]. discriminate.
Qed.

Lemma last_dot_unique (a a' b b' : list ascii) :
  (a ++ "."%char :: b = a' ++ "."%char :: b')%list ->
  forallb notDot b = true -> forallb notDot b' = true -> a = a' /\ b = b'.
Proof.
  revert a'. induction a as [|x a IH]; intros [|y a'] E Hb Hb'; cbn [List.app] in E.
  - injection E as ->. auto.
  - injection E as <- ->. apply forallb_app_true in Hb as [_ Hb]. discriminate.
  - injection E as -> <-. apply forallb_app_true in Hb' as [_ Hb']. discriminate.
  - injection E as -> E. destruct (IH _ E Hb Hb') as [-> ->]. auto.
Qed.

Lemma extname_simple stem ext :
  allStr notSlash stem = true -> allStr plain ext = true ->
  stem <> EmptyString -> (stem = "." -> ext <> EmptyString) ->
  extname (stem ++ "." ++ ext) = "." ++ ext.
Proof.
  intros Hs He Hne Hdots.
  assert (Hd : allStr notDot ext = true /\ allStr notSlash ext = true).
  { split; revert He; apply allStr_impl; unfold plain; intros c H;
      apply andb_true_iff in H; tauto. }
  destruct Hd as [Hd Hsl].
  set (path := stem ++ "." ++ ext).
  assert (NS : forallb notSlash (list_ascii_of_string path) = true).
  { rewrite forallb_chars. unfold path. rewrite !allStr_app, Hs, Hsl. reflexivity. }
  assert (EL : list_ascii_of_string path
               = (list_ascii_of_string stem ++ "."%char :: list_ascii_of_string ext)%list).
  { unfold path. rewrite <- (list_ascii_of_string_of_list_ascii
                              (list_ascii_of_string stem ++ "."%char :: list_ascii_of_string ext)).
    f_equal. rewrite str_app. cbn [string_of_list_ascii].
    now rewrite !string_of_list_ascii_of_string. }
  destruct (extname_cases path) as (pre & body & tl & E & P & Ht & _ & H).
  rewrite E in NS.
  apply forallb_app_true in NS as [N1 N2]. apply forallb_app_true in N2 as [_ N3].
  assert (pre = []) as ->.
  { destruct P as [P | [p0 ->]]; [exact P|].
    apply forallb_app_true in N1 as [_ N1]. discriminate. }
  assert (tl = []) as ->.
  { destruct tl as [|x tl]; [reflexivity|]. cbn [forallb] in Ht, N3.
    apply andb_true_iff in Ht as [Ht _]. apply andb_true_iff in N3 as [N3 _].
    unfold notSlash in N3. rewrite Ht in N3. discriminate. }
  cbn [List.app] in E. rewrite List.app_nil_r in E.
  destruct H as [[Hn _] | (a & b & Eb & Hn & H)].
  - rewrite <- E, EL in Hn. apply forallb_app_true in Hn as [_ Hn]. discriminate.
  - rewrite EL, Eb in E.
    apply last_dot_unique in E as [Ea Eb']; [|now rewrite forallb_chars | exact Hn].
    subst a b. rewrite H.
    destruct stem as [|c [|d r]]; [congruence | |].
    + cbn [list_ascii_of_string List.length Nat.eqb andb].
      destruct ext as [|x ext'].
      * destruct (isDot c) eqn:D; cbn; [|reflexivity].
        apply isDot_char in D. subst c. now destruct (Hdots eq_refl).
      * cbn [list_ascii_of_string List.length Nat.eqb]. rewrite !andb_false_r.
        cbn [string_of_list_ascii]. now rewrite string_of_list_ascii_of_string.
    + cbn [list_ascii_of_string List.length Nat.eqb]. rewrite andb_false_r. cbn [andb].
      now rewrite string_of_list_ascii_of_string.
Qed.

Lemma toLowerChar_plain c : plain c = true -> plain (toLowerChar c) = true.
Proof. destruct c as [[|] [|] [|] [|] [|] [|] [|] [|]]; vm_compute; congruence. Qed.

Lemma toLowerChar_idempotent c : toLowerChar (toLowerChar c) = toLowerChar c.
Proof. destruct c as [[|] [|] [|] [|] [|] [|] [|] [|]]; reflexivity. Qed.

Lemma toLowerCase_idempotent s : toLowerCase (toLowerCase s) = toLowerCase s.
Proof.
  unfold toLowerCase. induction s as [|c r IH]; simpl; [reflexivity|].
  now rewrite toLowerChar_idempotent, IH.
Qed.

Lemma allStr_map (p : ascii -> bool) f s :
  (forall c, p c = true -> p (f c) = true) -> allStr p s = true ->
  allStr p (mapStr f s) = true.
Proof.
  intro I. induction s as [|c r IH]; simpl; [reflexivity|].
  rewrite andb_true_iff. intros [Hc Hr]. now rewrite (I _ Hc), IH.
Qed.

Lemma lowered_extension_shape o :
  toLowerCase (extname o) = EmptyString
  \/ exists e, toLowerCase (extname o) = String "." e /\ allStr plain e = true.
Proof.
  destruct (extname_shape o) as [-> | (e & -> & He)]; [now left | right].
  exists (toLowerCase e). split; [reflexivity|].
  now apply allStr_map; [apply toLowerChar_plain|].
Qed.

(** X6: the extension [getFileExtension] returns is empty, or a period
    followed by characters none of which is a period or a slash; it is in
    lower case. *)
Theorem getFileExtension_shape (filename : string) :
  (getFileExtension filename = EmptyString
   \/ exists e, getFileExtension filename = String "." e /\ allStr plain e = true)
  /\ toLowerCase (getFileExtension filename) = getFileExtension filename.
Proof.
  unfold getFileExtension. split; [apply lowered_extension_shape|].
  apply toLowerCase_idempotent.
Qed.

(** X7: for an original name [stem.ext] without slashes, whose extension has
    no further period and whose stem is not empty (and not a lone period
    before an empty extension), the object name is the name an
    extension-less file would get, followed by the period and the
    lower-cased extension. *)
Theorem generateFileName_keeps_extension
    (venueName stem ext category : string) (now : Date) (uuid : string)
    (Hs : allStr notSlash stem = true) (He : allStr plain ext = true)
    (Hne : stem <> EmptyString) (Hdots : stem = "." -> ext <> EmptyString) :
  getFileExtension (stem ++ "." ++ ext) = "." ++ toLowerCase ext
  /\ generateFileName venueName (stem ++ "." ++ ext) category now uuid
     = generateFileName venueName "" category now uuid ++ "." ++ toLowerCase ext.
Proof.
  assert (E : toLowerCase (extname (stem ++ "." ++ ext)) = "." ++ toLowerCase ext).
  { now rewrite (extname_simple stem ext Hs He Hne Hdots). }
  split; [exact E|].
  unfold generateFileName. rewrite E.
  replace (toLowerCase (extname "")) with EmptyString by reflexivity.
  now rewrite app_nil_r.
Qed.

Lemma generateFileName_keeps_extension_witness :
  getFileExtension "Hall.Front.JPG" = ".jpg"
  /\ generateFileName "Oakview Manor" "Hall.Front.JPG" "" Sample.noon Sample.uuidA
     = generateFileName "Oakview Manor" "" "" Sample.noon Sample.uuidA ++ ".jpg".
Proof.
  apply (generateFileName_keeps_extension "Oakview Manor" "Hall.Front" "JPG" ""
           Sample.noon Sample.uuidA); [reflexivity | reflexivity | discriminate | discriminate].
Defined.

(** X8: an original name without any period gets no extension: its object
    name is the sanitized venue, the sanitized category if one is given, the
    timestamp and the 8-character identifier, joined by underscores. *)
Theorem generateFileName_without_extension
    (venueName originalName category : string) (now : Date) (uuid : string)
    (H : allStr notDot originalName = true) :
  getFileExtension originalName = EmptyString
  /\ generateFileName venueName originalName category now uuid
     = sanitizeVenueName venueName ++ "_"
       ++ (if truthy category then sanitizedCategoryOf category ++ "_" else EmptyString)
       ++ timestampOf now ++ "_" ++ slice0 8 uuid.
Proof.
  assert (E : toLowerCase (extname originalName) = EmptyString)
    by now rewrite (extname_dotless _ H).
  split; [exact E|].
  rewrite generateFileName_parts, E.
  now rewrite app_nil_r, !app_assoc.
Qed.

Lemma generateFileName_without_extension_witness :
  getFileExtension "README" = EmptyString
  /\ generateFileName "Oakview Manor" "README" "Menus" Sample.noon Sample.uuidA
     = "oakview-manor_menus_2024-01-15T10-30-45_3f2504e0".
Proof.
  exact (generateFileName_without_extension "Oakview Manor" "README" "Menus"
           Sample.noon Sample.uuidA eq_refl).
Defined.

Lemma allStr_slice0 p n s : allStr p s = true -> allStr p (slice0 n s) = true.
Proof.
  revert s. induction n as [|n IH]; intros [|c r]; simpl; auto.
  rewrite !andb_true_iff. intros [-> Hr]. auto.
Qed.

Lemma digit_notSlash c : isDigit c = true -> notSlash c = true.
Proof. destruct c as [[|] [|] [|] [|] [|] [|] [|] [|]]; vm_compute; congruence. Qed.

Lemma colonDot_notSlash c : notSlash c = true -> notSlash (colonDotToHyphen c) = true.
Proof. destruct c as [[|] [|] [|] [|] [|] [|] [|] [|]]; vm_compute; congruence. Qed.

Lemma plain_notSlash c : plain c = true -> notSlash c = true.
Proof. unfold plain. rewrite andb_true_iff. tauto. Qed.

Lemma notSlash_isSlash c : notSlash c = true -> isSlash c = false.
Proof. unfold notSlash. now rewrite negb_true_iff. Qed.

Lemma padDigits_notSlash k n : allStr notSlash (padDigits k n) = true.
Proof. exact (allStr_impl _ _ _ digit_notSlash (padDigits_digits k n)). Qed.

Lemma toISOString_notSlash d : allStr notSlash (toISOString d) = true.
Proof.
  unfold toISOString.
  destruct (_ && _); [|destruct (year d <? 0)%Z];
    repeat (rewrite allStr_app || rewrite padDigits_notSlash); reflexivity.
Qed.

Lemma timestampOf_notSlash d : allStr notSlash (timestampOf d) = true.
Proof.
  unfold timestampOf. apply allStr_slice0.
  apply allStr_map; [apply colonDot_notSlash | apply toISOString_notSlash].
Qed.

Lemma extension_notSlash o : allStr notSlash (toLowerCase (extname o)) = true.
Proof.
  destruct (lowered_extension_shape o) as [E | (e & E & He)];
    rewrite E; [reflexivity|].
  simpl. exact (allStr_impl _ _ _ plain_notSlash He).
Qed.

(** X9: when the first eight characters of the identifier hold no slash,
    the object name holds none either, so the object lies directly in its
    folder: the path has one slash without a category and two with one. *)
Theorem generateFileName_no_slash
    (venueName originalName category : string) (now : Date) (uuid : string)
    (U : allStr notSlash (slice0 8 uuid) = true) :
  let fileName := generateFileName venueName originalName category now uuid in
  countStr isSlash fileName = 0
  /\ countStr isSlash (generateFolderPath venueName category ++ "/" ++ fileName)
     = (if truthy category then 2 else 1).
Proof.
  cbv zeta.
  assert (N : countStr isSlash
                (generateFileName venueName originalName category now uuid) = 0).
  { rewrite generateFileName_parts.
    repeat rewrite countStr_app.
    rewrite (countStr_none _ _ _ slugChar_notSlash (sanitize_slugChars venueName)).
    rewrite (countStr_none _ _ _ notSlash_isSlash (timestampOf_notSlash now)).
    rewrite (countStr_none _ _ _ notSlash_isSlash U).
    rewrite (countStr_none _ _ _ notSlash_isSlash (extension_notSlash originalName)).
    destruct (truthy category); [|reflexivity].
    rewrite countStr_app.
    now rewrite (countStr_none _ _ _ alnum_notSlash (category_alnum category)). }
  split; [exact N|].
  rewrite !countStr_app, N.
  rewrite (proj2 (generateFolderPath_shape_aux venueName category)).
  destruct (truthy category); reflexivity.
Qed.

Lemma generateFileName_no_slash_witness :
  countStr isSlash
    (generateFileName "Oakview Manor" "a/b.c/d.PDF" "Ceremony" Sample.noon Sample.uuidA) = 0
  /\ countStr isSlash
       (generateFolderPath "Oakview Manor" "Ceremony" ++ "/"
          ++ generateFileName "Oakview Manor" "a/b.c/d.PDF" "Ceremony"
               Sample.noon Sample.uuidA) = 2.
Proof.
  apply (generateFileName_no_slash "Oakview Manor" "a/b.c/d.PDF" "Ceremony"
           Sample.noon Sample.uuidA). reflexivity.
Defined.

End Extensions.

(** ** Classification and the allow-list *)

Section Types.
Import JS Props FileUtils.

Lemma existsb_eqb_In x (l : list string) : existsb (String.eqb x) l = true <-> In x l.
Proof.
  rewrite existsb_exists. split.
  - intros (y & Hy & E). apply String.eqb_eq in E. now subst.
  - intro H. exists x. split; [exact H | apply String.eqb_refl].
Qed.

(** X10: no MIME type is both an image and a document for the two
    predicates, and a type [isDocumentFile] accepts is classed "document" by
    [getFileCategory], except [text/plain], which it classes "other". *)
Theorem isDocumentFile_category (mimeType : string)
    (H : isDocumentFile mimeType = true) :
  isImageFile mimeType = false
  /\ getFileCategory mimeType
     = (if String.eqb mimeType "text/plain" then "other" else "document").
Proof.
  unfold isDocumentFile in H. apply existsb_eqb_In in H.
  cbn [In] in H.
  destruct H as [<-|[<-|[<-|[<-|[<-|[]]]]]]; split; reflexivity.
Qed.

Lemma isDocumentFile_category_witness :
  isImageFile "text/plain" = false /\ getFileCategory "text/plain" = "other".
Proof. exact (isDocumentFile_category "text/plain" eq_refl). Defined.

(** X11: the file filter accepts exactly the nine allowed types, compared as
    whole strings, and every accepted type is an image or a document for the
    two predicates, never both. *)
Theorem fileFilter_accepts (file : Upload.File) :
  (UploadMiddleware.fileFilter file = None
   <-> In (Upload.mimetype file) UploadMiddleware.ALL_ALLOWED_TYPES)
  /\ (UploadMiddleware.fileFilter file = None ->
      isImageFile (Upload.mimetype file) = negb (isDocumentFile (Upload.mimetype file)))
  /\ List.length UploadMiddleware.ALL_ALLOWED_TYPES = 9.
Proof.
  assert (A : UploadMiddleware.fileFilter file = None
              <-> In (Upload.mimetype file) UploadMiddleware.ALL_ALLOWED_TYPES).
  { unfold UploadMiddleware.fileFilter, validateFileType.
    rewrite <- existsb_eqb_In.
    destruct (existsb _ _); simpl; split; congruence. }
  split; [exact A|]. split; [|reflexivity].
  intro H. apply A in H. cbn in H.
  destruct H as [<-|[<-|[<-|[<-|[<-|[<-|[<-|[<-|[<-|[]]]]]]]]]]; reflexivity.
Qed.

(** X12: a file of a type outside the allow-list is answered with status
    400, error "Invalid file type", a message naming the type, and the list
    of allowed types. *)
Theorem fileFilter_rejection (maxFileSize : Z) (file : Upload.File)
    (H : ~ In (Upload.mimetype file) UploadMiddleware.ALL_ALLOWED_TYPES) :
  exists e,
    UploadMiddleware.fileFilter file = Some e
    /\ UploadMiddleware.handleUploadError maxFileSize e
       = UploadMiddleware.Rejected 400 "Invalid file type"
           ("File type " ++ Upload.mimetype file ++ " is not allowed")
           (Some UploadMiddleware.ALL_ALLOWED_TYPES) None.
Proof.
  unfold UploadMiddleware.fileFilter, validateFileType.
  destruct (existsb _ _) eqn:E.
  - apply existsb_eqb_In in E. contradiction.
  - eexists. split; reflexivity.
Qed.

Lemma fileFilter_rejection_witness :
  exists e,
    UploadMiddleware.fileFilter (Upload.mkFile "a.zip" "application/zip" 10 []) = Some e
    /\ UploadMiddleware.handleUploadError 1000 e
       = UploadMiddleware.Rejected 400 "Invalid file type"
           "File type application/zip is not allowed"
           (Some UploadMiddleware.ALL_ALLOWED_TYPES) None.
Proof.
  apply (fileFilter_rejection 1000 (Upload.mkFile "a.zip" "application/zip" 10 [])).
  cbn. intuition discriminate.
Defined.

Lemma validateEach_next maxFileSize files :
  UploadMiddleware.validateEach maxFileSize files = UploadMiddleware.Next
  <-> forallb (sizeOk maxFileSize) files = true.
Proof.
  induction files as [|f files IH]; simpl; [tauto|].
  unfold validateFileSize, sizeOk at 1.
  destruct (Upload.size f <=? maxFileSize)%Z; simpl; [|split; discriminate].
  destruct (Upload.size f =? 0)%Z; simpl; [split; discriminate | exact IH].
Qed.

Lemma validateFiles_next_iff (maxFileSize : Z) (files : option (list Upload.File)) :
  UploadMiddleware.validateFiles maxFileSize files = UploadMiddleware.Next
  <-> exists fs, files = Some fs /\ fs <> []
                 /\ forallb (sizeOk maxFileSize) fs = true.
Proof.
  destruct files as [[|f fs]|]; cbn [UploadMiddleware.validateFiles].
  - split; [discriminate | intros (fs & E & N & _); injection E as <-; congruence].
  - rewrite validateEach_next. split.
    + intro H. exists (f :: fs). repeat split; auto. discriminate.
    + intros (fs' & E & _ & H). injection E as <-. exact H.
  - split; [discriminate | intros (fs & E & _); discriminate].
Qed.

(** X13: [validateFiles] lets a request through exactly when it has at least
    one file and every file is within the limit and not of size 0; every
    other request is answered with status 400. *)
Theorem validateFiles_passes (maxFileSize : Z) (files : option (list Upload.File)) :
  (UploadMiddleware.validateFiles maxFileSize files = UploadMiddleware.Next
   <-> exists fs, files = Some fs /\ fs <> []
                  /\ forallb (sizeOk maxFileSize) fs = true)
  /\ (UploadMiddleware.validateFiles maxFileSize files = UploadMiddleware.Next
      \/ exists error message allowed maxSize,
           UploadMiddleware.validateFiles maxFileSize files
           = UploadMiddleware.Rejected 400 error message allowed maxSize).
Proof.
  split; [apply validateFiles_next_iff|].
  - destruct files as [[|f fs]|]; cbn [UploadMiddleware.validateFiles];
      try (right; repeat eexists; reflexivity).
    induction (f :: fs) as [|g l IH]; [now left|]. simpl.
    destruct (negb _); [right; repeat eexists; reflexivity|].
    destruct (_ =? 0)%Z; [right; repeat eexists; reflexivity | exact IH].
Qed.

(** X14: the answer of [validateFiles] is about the first file that fails:
    after any number of passing files, a file over the limit is answered
    "File too large" with some [maxSize] text and a file of size 0 within
    the limit "Empty file", both naming that file, whatever follows it.  For
    a limit that is a safe integer the [maxSize] text is the limit in
    megabytes, rounded to the nearest integer, followed by "MB". *)
Theorem validateFiles_first_offender
    (maxFileSize : Z) (before after : list Upload.File) (file : Upload.File)
    (B : forallb (sizeOk maxFileSize) before = true)
    (F : sizeOk maxFileSize file = false) :
  exists maxSize : string,
    UploadMiddleware.validateFiles maxFileSize (Some (before ++ file :: after)%list)
    = (if (Upload.size file <=? maxFileSize)%Z then
         UploadMiddleware.Rejected 400 "Empty file"
           ("File " ++ UploadMiddleware.quote ++ Upload.originalname file
              ++ UploadMiddleware.quote ++ " is empty")
           None None
       else
         UploadMiddleware.Rejected 400 "File too large"
           ("File " ++ UploadMiddleware.quote ++ Upload.originalname file
              ++ UploadMiddleware.quote ++ " exceeds the maximum size limit")
           None (Some maxSize))
    /\ ((Z.abs maxFileSize < 2 ^ 53)%Z ->
        maxSize = UploadMiddleware.roundedMB maxFileSize ++ "MB").
Proof.
  exists (UploadMiddleware.roundedMB maxFileSize ++ "MB").
  split; [|reflexivity].
  assert (E : UploadMiddleware.validateFiles maxFileSize (Some (before ++ file :: after)%list)
              = UploadMiddleware.validateEach maxFileSize (before ++ file :: after)%list).
  { destruct before; reflexivity. }
  rewrite E. clear E.
  induction before as [|g l IH].
  - cbn [List.app UploadMiddleware.validateEach]. unfold validateFileSize.
    unfold sizeOk in F.
    destruct (Upload.size file <=? maxFileSize)%Z; cbn [negb]; [|reflexivity].
    cbn [andb] in F. apply negb_false_iff in F. now rewrite F.
  - cbn [forallb] in B. apply andb_true_iff in B as [Bg Bl].
    cbn [List.app UploadMiddleware.validateEach].
    unfold sizeOk in Bg. apply andb_true_iff in Bg as [G1 G2].
    apply negb_true_iff in G2. unfold validateFileSize. rewrite G1, G2.
    exact (IH Bl).
Qed.

Lemma validateFiles_first_offender_witness :
  UploadMiddleware.validateFiles (UploadMiddleware.MAX_FILE_SIZE None)
    (Some [Sample.menu; Upload.mkFile "empty.png" "image/png" 0 []; Sample.photo])
  = UploadMiddleware.Rejected 400 "Empty file"
      ("File " ++ UploadMiddleware.quote ++ "empty.png" ++ UploadMiddleware.quote
         ++ " is empty")
      None None
  /\ UploadMiddleware.validateFiles (UploadMiddleware.MAX_FILE_SIZE None)
       (Some [Sample.menu; Upload.mkFile "film.png" "image/png" 10485761 [];
              Upload.mkFile "empty.png" "image/png" 0 []])
     = UploadMiddleware.Rejected 400 "File too large"
         ("File " ++ UploadMiddleware.quote ++ "film.png" ++ UploadMiddleware.quote
            ++ " exceeds the maximum size limit")
         None (Some "10MB").
Proof.
  split.
  - destruct (validateFiles_first_offender (UploadMiddleware.MAX_FILE_SIZE None)
                [Sample.menu] [Sample.photo] (Upload.mkFile "empty.png" "image/png" 0 [])
                eq_refl eq_refl) as (maxSize & E & _).
    exact E.
  - destruct (validateFiles_first_offender (UploadMiddleware.MAX_FILE_SIZE None)
                [Sample.menu] [Upload.mkFile "empty.png" "image/png" 0 []]
                (Upload.mkFile "film.png" "image/png" 10485761 [])
                eq_refl eq_refl) as (maxSize & E & M).
    rewrite (M eq_refl) in E. exact E.
Defined.

End Types.

(** ** The credential check *)

Section Credentials.
Import JS Props Auth.

Lemma split_plain s : allStr notSpace s = true -> split " " s = [s].
Proof.
  induction s as [|c r IH]; simpl; [reflexivity|].
  rewrite andb_true_iff. unfold notSpace at 1. rewrite negb_true_iff.
  intros [-> Hr]. now rewrite (IH Hr).
Qed.

Lemma split_app a b :
  allStr notSpace a = true -> split " " (a ++ " " ++ b) = a :: split " " b.
Proof.
  induction a as [|c r IH]; intro H; [reflexivity|].
  simpl in H. apply andb_true_iff in H as [Hc Hr].
  unfold notSpace in Hc. apply negb_true_iff in Hc.
  change (split " " (String c (r ++ " " ++ b)) = String c r :: split " " b).
  cbn [split]. now rewrite Hc, (IH Hr).
Qed.

Lemma split_parts s : Forall (fun x => allStr notSpace x = true) (split " " s).
Proof.
  induction s as [|c r IH]; simpl; [repeat constructor|].
  destruct (Ascii.eqb c " ") eqn:E; [constructor; [reflexivity | exact IH]|].
  assert (C : notSpace c = true) by (unfold notSpace; now rewrite E).
  destruct (split " " r) as [|h t].
  - constructor; [simpl; now rewrite C | constructor].
  - inversion IH as [|? ? Hh Ht]; subst.
    constructor; [simpl; now rewrite C, Hh | exact Ht].
Qed.

Lemma index1_plain h tok :
  index1 (split " " h) = VString tok -> allStr notSpace tok = true.
Proof.
  pose proof (split_parts h) as F.
  destruct (split " " h) as [|x [|y l]]; simpl; try discriminate.
  intro E. injection E as <-. inversion F as [|? ? _ F']. now inversion F'.
Qed.

Lemma spaced_not_plain s : includes " " s = true -> allStr notSpace s = false.
Proof.
  intro H. apply includes_substring in H as (a & b & ->).
  rewrite allStr_app. simpl. apply andb_false_r.
Qed.

Lemma tokenOf_header h q :
  truthyV (index1 (split " " h)) = true ->
  tokenOf (mkRequest (Some h) q) = index1 (split " " h).
Proof.
  intro T. unfold tokenOf. cbn [authorization queryToken].
  destruct h as [|c r]; [discriminate|]. cbn [truthy]. now rewrite T.
Qed.

Lemma optionalAuth_next (req : Request) (accessToken : option string) :
  optionalAuth req accessToken = true <-> authenticateToken req accessToken = Next.
Proof.
  unfold optionalAuth, authenticateToken.
  destruct (tokenOf req) as [|tok|]; destruct accessToken as [secret|];
    cbn [truthyV negb andb]; try (split; discriminate).
  - destruct tok as [|a tok]; cbn [truthy negb andb]; [split; discriminate|].
    destruct secret as [|b secret]; cbn [truthy negb]; [split; discriminate|].
    destruct (String.eqb (String a tok) (String b secret)); split; congruence.
  - destruct tok; cbn; split; discriminate.
  - destruct secret; cbn; split; discriminate.
Qed.

(** X15: [optionalAuth] marks a request as authenticated exactly when
    [authenticateToken] lets it through. *)
Theorem optionalAuth_agrees (req : Request) (accessToken : option string) :
  optionalAuth req accessToken = true <-> authenticateToken req accessToken = Next.
Proof. apply optionalAuth_next. Qed.

(** X16: when the Authorization header carries a token (a non-empty second
    word), the query parameter plays no part in the outcome. *)
Theorem header_token_takes_precedence
    (header : string) (query query' : Value) (accessToken : option string)
    (H : truthyV (index1 (split " " header)) = true) :
  tokenOf (mkRequest (Some header) query) = index1 (split " " header)
  /\ authenticateToken (mkRequest (Some header) query) accessToken
     = authenticateToken (mkRequest (Some header) query') accessToken.
Proof.
  split; [now apply tokenOf_header|].
  unfold authenticateToken. now rewrite !tokenOf_header.
Qed.

Lemma header_token_takes_precedence_witness :
  authenticateToken (mkRequest (Some "Bearer wrong") (VString "s3cret")) (Some "s3cret")
  = authenticateToken (mkRequest (Some "Bearer wrong") VUndefined) (Some "s3cret").
Proof.
  exact (proj2 (header_token_takes_precedence "Bearer wrong" (VString "s3cret")
                  VUndefined (Some "s3cret") eq_refl)).
Defined.

(** X17: the header token is cut at the next space, so when the configured
    secret contains a space, a request whose header carries a token is
    always answered with InvalidCredential. *)
Theorem spaced_secret_never_matches_header
    (header : string) (query : Value) (secret : string)
    (S : includes " " secret = true)
    (H : truthyV (index1 (split " " header)) = true) :
  authenticateToken (mkRequest (Some header) query) (Some secret)
  = Spec.InvalidCredential.
Proof.
  unfold authenticateToken. rewrite (tokenOf_header header query H), H.
  cbn [negb].
  destruct secret as [|c secret]; [discriminate|]. cbn [truthy negb].
  destruct (index1 (split " " header)) as [|tok|] eqn:E; try reflexivity.
  destruct (String.eqb_spec tok (String c secret)) as [->|]; [|reflexivity].
  apply index1_plain in E. rewrite (spaced_not_plain _ S) in E. discriminate.
Qed.

Lemma spaced_secret_never_matches_header_witness :
  authenticateToken (mkRequest (Some "Bearer my secret") VUndefined) (Some "my secret")
  = Spec.InvalidCredential.
Proof.
  exact (spaced_secret_never_matches_header "Bearer my secret" VUndefined "my secret"
           eq_refl eq_refl).
Defined.

(** X18: the header is not checked for the word "Bearer": for any first word
    without a space, the token is the non-empty word that follows the first
    space. *)
Theorem header_scheme_is_ignored
    (scheme token rest : string) (query : Value)
    (Hs : allStr notSpace scheme = true) (Ht : allStr notSpace token = true)
    (Hne : token <> EmptyString) :
  tokenOf (mkRequest (Some (scheme ++ " " ++ token)) query) = VString token
  /\ tokenOf (mkRequest (Some (scheme ++ " " ++ token ++ " " ++ rest)) query)
     = VString token.
Proof.
  assert (T : truthy token = true) by (destruct token; [congruence | reflexivity]).
  assert (S1 : split " " (scheme ++ " " ++ token) = [scheme; token])
    by now rewrite (split_app _ _ Hs), (split_plain _ Ht).
  assert (S2 : split " " (scheme ++ " " ++ token ++ " " ++ rest)
               = scheme :: token :: split " " rest)
    by now rewrite (split_app _ _ Hs), (split_app _ _ Ht).
  split; rewrite tokenOf_header; rewrite ?S1, ?S2; auto.
Qed.

Lemma header_scheme_is_ignored_witness :
  tokenOf (mkRequest (Some "Basic s3cret") VUndefined) = VString "s3cret"
  /\ tokenOf (mkRequest (Some "Basic s3cret and more") VUndefined) = VString "s3cret".
Proof.
  apply (header_scheme_is_ignored "Basic" "s3cret" "and more" VUndefined);
    [reflexivity | reflexivity | discriminate].
Defined.

End Credentials.

(** ** Upload handlers *)

Section UploadHandlers.
Import JS Shape Props FileUtils World Upload.

Variable w : World.

Lemma uploadOne_resultFor bucketName venue category file t :
  resultFor w bucketName venue category file
    (fst (uploadOne w bucketName venue category file t)).
Proof.
  unfold uploadOne, resultFor, bind, newDate, newUuid, upload, ret. simpl.
  destruct (storageUpload w _ _ _ _ _); simpl; (split; [reflexivity|]).
  - left. split; [reflexivity|]. eexists _, _. repeat split.
  - right. repeat split. eauto.
  - right. repeat split. eauto.
Qed.

Lemma uploadOne_ticks bucketName venue category file t :
  let t' := snd (uploadOne w bucketName venue category file t) in
  calls t' = S (calls t) /\ uuids t' = S (uuids t) /\ dates t < dates t'.
Proof.
  unfold uploadOne, bind, newDate, newUuid, upload, ret. simpl.
  destruct (storageUpload w _ _ _ _ _); simpl; lia.
Qed.

Lemma uploadLoop_resultFor bucketName venue category files t :
  Forall2 (resultFor w bucketName venue category) files
    (fst (uploadLoop w bucketName venue category files t)).
Proof.
  revert t. induction files as [|f files IH]; intro t; [constructor|].
  rewrite uploadLoop_cons.
  pose proof (uploadOne_resultFor bucketName venue category f t) as R.
  destruct (uploadOne w bucketName venue category f t) as [r t1].
  specialize (IH t1).
  destruct (uploadLoop w bucketName venue category files t1) as [rs t2].
  constructor; assumption.
Qed.

Lemma uploadLoop_ticks bucketName venue category files t :
  let t' := snd (uploadLoop w bucketName venue category files t) in
  calls t' = calls t + List.length files /\ uuids t' = uuids t + List.length files.
Proof.
  revert t. induction files as [|f files IH]; intro t; [simpl; lia|].
  cbv zeta. rewrite uploadLoop_cons.
  pose proof (uploadOne_ticks bucketName venue category f t) as T.
  destruct (uploadOne w bucketName venue category f t) as [r t1].
  specialize (IH t1). cbv zeta in IH, T.
  destruct (uploadLoop w bucketName venue category files t1) as [rs t2].
  cbn [fst snd List.length] in *. lia.
Qed.

(** X19: every entry of the upload results is either a success carrying the
    derived object name, the path folder/name, the public URL of that very
    path and the file's own size and type, or a failure carrying only the
    original name and a message; entries follow the order of the files. *)
Theorem uploadFilesToBucket_results
    (files : list File) (bucketName venue : string) (category : option string)
    (t : Ticks) :
  Forall2
    (resultFor w bucketName venue
       (match category with Some c => c | None => EmptyString end))
    files (fst (uploadFilesToBucket w files bucketName venue category t)).
Proof. apply uploadLoop_resultFor. Qed.

(** X21: a venue name that is not empty but sanitizes to the empty string is
    accepted all the same: the upload goes ahead with an empty folder, so
    every stored path starts with a slash and an underscore. *)
Theorem degenerate_venue_is_accepted
    (b : Config.Buckets) (venue : string) (files : list File) (t : Ticks)
    (T : truthy venue = true) (E : sanitizeVenueName venue = EmptyString) :
  exists message uploads,
    fst (postMenus w b (mkBody (Some venue) None) files t)
    = Uploaded message uploads (Config.MENUS b) venue None
    /\ List.length uploads = List.length files
    /\ Forall (fun r => success r = true ->
                        exists rest, filePath r = Some ("/_" ++ rest)) uploads.
Proof.
  unfold postMenus, postPlain, uploadFilesToBucket, bind, ret.
  cbn [venueName]. rewrite T. cbn [negb].
  pose proof (uploadLoop_length w (Config.MENUS b) venue "" files t) as L.
  pose proof (uploadLoop_resultFor (Config.MENUS b) venue "" files t) as R.
  destruct (uploadLoop w (Config.MENUS b) venue "" files t) as [rs t1].
  cbn [fst] in *. eexists _, rs. split; [reflexivity|]. split; [exact L|].
  clear L. induction R as [|f r fs rs' Hr _ IH]; constructor; [|exact IH].
  intro S. destruct Hr as [_ [(_ & now & uuid & _ & P & _) | (F & _)]]; [|congruence].
  cbv zeta in P. rewrite P. unfold generateFolderPath.
  rewrite generateFileName_parts, E. cbn [truthy append].
  eexists. reflexivity.
Qed.

End UploadHandlers.

Lemma degenerate_venue_is_accepted_witness :
  exists message uploads,
    fst (Upload.postMenus Sample.calm Sample.buckets
           (Upload.mkBody (Some "!!!") None) [Sample.menu] Sample.start)
    = Upload.Uploaded message uploads "menus" "!!!" None
    /\ List.length uploads = 1
    /\ Forall (fun r => Upload.success r = true ->
                        exists rest, Upload.filePath r = Some ("/_" ++ rest)) uploads.
Proof.
  exact (degenerate_venue_is_accepted Sample.calm Sample.buckets "!!!" [Sample.menu]
           Sample.start eq_refl eq_refl).
Defined.

(** ** Upload handlers on the fields as parsed *)

Section FieldHandlers.
Import JS Props World Config.

Variable w : World.

Lemma fields_uploadLoop_plain bucketName venue c files t :
  UploadFields.uploadLoop w bucketName (Auth.VString venue) (Auth.VString c) files t
  = Upload.uploadLoop w bucketName venue c files t.
Proof.
  revert t. induction files as [|f files IH]; intro t; [reflexivity|].
  cbn [UploadFields.uploadLoop Upload.uploadLoop UploadFields.uploadOne].
  unfold bind. destruct (Upload.uploadOne w bucketName venue c f t) as [r t1].
  now rewrite IH.
Qed.

Lemma fields_uploadLoop_thrown bucketName venueName category files t :
  plainFields venueName category = false ->
  category <> Auth.VUndefined ->
  UploadFields.uploadLoop w bucketName venueName category files t
  = (List.map unexpected files, t).
Proof.
  intros P N. revert t. induction files as [|f files IH]; intro t; [reflexivity|].
  cbn [UploadFields.uploadLoop List.map]. unfold bind.
  assert (E : UploadFields.uploadOne w bucketName venueName category f t
              = (unexpected f, t)).
  { destruct venueName as [|venue|], category as [|c|];
      try discriminate P; try (now destruct N); reflexivity. }
  rewrite E, IH. reflexivity.
Qed.

(** On string fields the handler's loop is the loop of [Upload]. *)
Lemma fields_uploadFilesToBucket_plain files bucketName venue (category : option string) t :
  UploadFields.uploadFilesToBucket w files bucketName (Auth.VString venue)
    (match category with Some c => Auth.VString c | None => Auth.VUndefined end) t
  = Upload.uploadFilesToBucket w files bucketName venue category t.
Proof.
  unfold UploadFields.uploadFilesToBucket, Upload.uploadFilesToBucket.
  destruct category as [c|]; apply fields_uploadLoop_plain.
Qed.

(** On string fields the handlers are the handlers of [Upload]. *)
Lemma fields_post_plain (b : Buckets) (body : Upload.Body) files t :
  UploadFields.postPhotos w b (UploadFields.ofBody body) files t
  = (UploadFields.ofResponse (fst (Upload.postPhotos w b body files t)),
     snd (Upload.postPhotos w b body files t))
  /\ UploadFields.postMenus w b (UploadFields.ofBody body) files t
     = (UploadFields.ofResponse (fst (Upload.postMenus w b body files t)),
        snd (Upload.postMenus w b body files t))
  /\ UploadFields.postPricing w b (UploadFields.ofBody body) files t
     = (UploadFields.ofResponse (fst (Upload.postPricing w b body files t)),
        snd (Upload.postPricing w b body files t)).
Proof.
  destruct body as [[venue|] category];
    unfold UploadFields.postPhotos, UploadFields.postMenus, UploadFields.postPricing,
      UploadFields.postPlain, Upload.postPhotos, Upload.postMenus, Upload.postPricing,
      Upload.postPlain, UploadFields.ofBody, bind, ret;
    cbn [Upload.venueName Upload.category UploadFields.venueName UploadFields.category
         UploadFields.ofField Auth.truthyV negb];
    [|repeat split].
  destruct (truthy venue); cbn [negb]; [|repeat split].
  pose proof (fields_uploadFilesToBucket_plain files (PHOTOS b) venue category t) as E1.
  pose proof (fields_uploadFilesToBucket_plain files (MENUS b) venue None t) as E2.
  pose proof (fields_uploadFilesToBucket_plain files (PRICING b) venue None t) as E3.
  cbn [UploadFields.ofField] in E1, E2, E3.
  change (match category with
          | Some c => Auth.VString c
          | None => Auth.VUndefined
          end) with (UploadFields.ofField category) in E1.
  rewrite E1, E2, E3.
  destruct (Upload.uploadFilesToBucket w files (PHOTOS b) venue category t).
  destruct (Upload.uploadFilesToBucket w files (MENUS b) venue None t).
  destruct (Upload.uploadFilesToBucket w files (PRICING b) venue None t).
  cbn [fst snd UploadFields.ofResponse option_map].
  split; [|split; reflexivity].
  destruct category as [[|x c]|]; reflexivity.
Qed.

Lemma fields_uploadFilesToBucket files bucketName venueName category t :
  let r := UploadFields.uploadFilesToBucket w files bucketName venueName category t in
  List.length (fst r) = List.length files
  /\ calls (snd r) = calls t + reaching venueName category files
  /\ uuids (snd r) = uuids t + reaching venueName category files
  /\ (plainFields venueName category = false -> fst r = List.map unexpected files).
Proof.
  cbv zeta. unfold UploadFields.uploadFilesToBucket, reaching.
  destruct (plainFields venueName category) eqn:P.
  - destruct venueName as [|venue|]; try discriminate P.
    assert (E : exists c,
               match category with
               | Auth.VUndefined => Auth.VString EmptyString
               | c => c
               end = Auth.VString c).
    { destruct category as [|c|]; try discriminate P; eauto. }
    destruct E as [c ->]. rewrite fields_uploadLoop_plain.
    pose proof (uploadLoop_length w bucketName venue c files t) as L.
    pose proof (uploadLoop_ticks w bucketName venue c files t) as T.
    cbv zeta in T. intuition discriminate.
  - rewrite fields_uploadLoop_thrown.
    + cbn [fst snd]. rewrite List.length_map. intuition lia.
    + destruct venueName as [|venue|], category as [|c|];
        try discriminate P; reflexivity.
    + destruct category; discriminate.
Qed.

(** X20: a request with a venue name is always answered with success, also
    when uploads failed or a field arrived as an array: the answer holds one
    result per file and a message with the number of files.  When the venue
    name is a string and the category a string or absent, the store is
    called once and one identifier is drawn per file; when either field is
    an array or an object, the store is not called, no identifier is drawn
    and every result is the failure "Unexpected upload error". *)
Theorem upload_always_answers_success
    (b : Buckets) (venueName category : Auth.Value) (files : list Upload.File)
    (t : Ticks) (V : Auth.truthyV venueName = true) :
  let body := UploadFields.mkBody venueName category in
  let photos := UploadFields.postPhotos w b body files t in
  let menus := UploadFields.postMenus w b body files t in
  (exists uploads,
     fst photos
     = UploadFields.Uploaded
         ("Successfully uploaded " ++ Upload.lengthText files
            ++ " file(s) to photos bucket")
         uploads (PHOTOS b) venueName
         (Some (if Auth.truthyV category then category else Auth.VString "general"))
     /\ List.length uploads = List.length files
     /\ (plainFields venueName category = false ->
         uploads = List.map unexpected files))
  /\ (exists uploads,
        fst menus
        = UploadFields.Uploaded
            ("Successfully uploaded " ++ Upload.lengthText files
               ++ " file(s) to menus bucket")
            uploads (MENUS b) venueName None
        /\ List.length uploads = List.length files
        /\ (plainFields venueName Auth.VUndefined = false ->
            uploads = List.map unexpected files))
  /\ calls (snd photos) = calls t + reaching venueName category files
  /\ uuids (snd photos) = uuids t + reaching venueName category files
  /\ calls (snd menus) = calls t + reaching venueName Auth.VUndefined files
  /\ uuids (snd menus) = uuids t + reaching venueName Auth.VUndefined files.
Proof.
  cbv zeta.
  unfold UploadFields.postMenus, UploadFields.postPlain, UploadFields.postPhotos,
    bind, ret.
  cbn [UploadFields.venueName UploadFields.category]. rewrite V. cbn [negb].
  pose proof (fields_uploadFilesToBucket files (PHOTOS b) venueName category t) as F1.
  pose proof (fields_uploadFilesToBucket files (MENUS b) venueName Auth.VUndefined t)
    as F2.
  cbv zeta in F1, F2.
  destruct (UploadFields.uploadFilesToBucket w files (PHOTOS b) venueName category t)
    as [r1 t1].
  destruct (UploadFields.uploadFilesToBucket w files (MENUS b) venueName
              Auth.VUndefined t) as [r2 t2].
  cbn [fst snd] in *.
  destruct F1 as (L1 & C1 & U1 & A1), F2 as (L2 & C2 & U2 & A2).
  assert (N1 : Upload.lengthText r1 = Upload.lengthText files)
    by (unfold Upload.lengthText; now rewrite L1).
  assert (N2 : Upload.lengthText r2 = Upload.lengthText files)
    by (unfold Upload.lengthText; now rewrite L2).
  rewrite N1, N2.
  split; [exists r1; split; [reflexivity | split; [exact L1 | exact A1]]|].
  split; [exists r2; split; [reflexivity | split; [exact L2 | exact A2]]|].
  split; [exact C1|]. split; [exact U1|]. split; [exact C2 | exact U2].
Qed.

End FieldHandlers.

Lemma upload_always_answers_success_witness :
  fst (UploadFields.postPhotos Sample.calm Sample.buckets
         (UploadFields.mkBody Auth.VObject (Auth.VString "ceremony"))
         [Sample.menu; Sample.photo] Sample.start)
  = UploadFields.Uploaded "Successfully uploaded 2 file(s) to photos bucket"
      [Upload.failure "menu.pdf" "Unexpected upload error";
       Upload.failure (Upload.originalname Sample.photo) "Unexpected upload error"]
      "photos" Auth.VObject (Some (Auth.VString "ceremony"))
  /\ World.calls (snd (UploadFields.postPhotos Sample.calm Sample.buckets
                         (UploadFields.mkBody Auth.VObject (Auth.VString "ceremony"))
                         [Sample.menu; Sample.photo] Sample.start))
     = World.calls Sample.start
  /\ World.calls (snd (UploadFields.postPhotos Sample.calm Sample.buckets
                         (UploadFields.mkBody (Auth.VString "Oakview Manor") Auth.VObject)
                         [Sample.menu; Sample.photo] Sample.start))
     = World.calls Sample.start
  /\ World.calls (snd (UploadFields.postMenus Sample.calm Sample.buckets
                         (UploadFields.mkBody (Auth.VString "Oakview Manor") Auth.VObject)
                         [Sample.menu; Sample.photo] Sample.start))
     = World.calls Sample.start + 2.
Proof.
  destruct (upload_always_answers_success Sample.calm Sample.buckets
              Auth.VObject (Auth.VString "ceremony") [Sample.menu; Sample.photo]
              Sample.start eq_refl)
    as ((uploads & E & _ & A) & _ & C & _).
  destruct (upload_always_answers_success Sample.calm Sample.buckets
              (Auth.VString "Oakview Manor") Auth.VObject [Sample.menu; Sample.photo]
              Sample.start eq_refl)
    as (_ & _ & C1 & _ & C2 & _).
  split; [rewrite E, (A eq_refl); reflexivity|].
  split; [exact C|]. split; [exact C1 | exact C2].
Defined.

(** ** Listing venues *)

Section VenueList.
Import JS Props World Config Venues.

Lemma insertSorted_In v x l : In v (insertSorted x l) <-> v = x \/ In v l.
Proof.
  induction l as [|y r IH]; simpl; [intuition|].
  destruct (String.leb x y); simpl; [intuition|].
  rewrite IH. intuition.
Qed.

Lemma insertSorted_sorted x l : Sorted ordered l -> Sorted ordered (insertSorted x l).
Proof.
  induction l as [|y r IH]; intro S; simpl; [repeat constructor|].
  destruct (String.leb x y) eqn:E.
  - constructor; [exact S | constructor; exact E].
  - inversion S as [|? ? Sr Hd]; subst.
    constructor; [exact (IH Sr)|].
    assert (Oyx : ordered y x).
    { unfold ordered. destruct (String.leb_total x y); congruence. }
    destruct r as [|z r']; simpl; [constructor; exact Oyx|].
    destruct (String.leb x z); constructor; [exact Oyx|].
    now inversion Hd.
Qed.

Lemma insertSorted_NoDup x l : ~ In x l -> NoDup l -> NoDup (insertSorted x l).
Proof.
  induction l as [|y r IH]; intros N D; simpl; [repeat constructor; auto|].
  destruct (String.leb x y); [constructor; assumption|].
  inversion D as [|? ? Ny Dr]; subst. simpl in N.
  constructor; [|apply IH; tauto].
  rewrite insertSorted_In. intros [->|H]; tauto.
Qed.

Lemma sort_In v l : In v (sort l) <-> In v l.
Proof.
  unfold sort. induction l as [|x l IH]; simpl; [tauto|].
  rewrite insertSorted_In, IH. intuition.
Qed.

Lemma sort_sorted l : Sorted ordered (sort l).
Proof.
  unfold sort. induction l as [|x l IH]; simpl; [constructor|].
  now apply insertSorted_sorted.
Qed.

Lemma sort_NoDup l : NoDup l -> NoDup (sort l).
Proof.
  unfold sort. induction l as [|x l IH]; intro D; simpl; [constructor|].
  inversion D; subst. apply insertSorted_NoDup; [|auto].
  change (fold_right insertSorted [] l) with (sort l). now rewrite sort_In.
Qed.

Lemma setAdd_In v x l : In v (setAdd x l) <-> v = x \/ In v l.
Proof.
  unfold setAdd. destruct (existsb _ _) eqn:E.
  - apply existsb_eqb_In in E. split; [auto | intros [->|H]; auto].
  - rewrite in_app_iff. simpl. intuition.
Qed.

Lemma setAdd_NoDup x l : NoDup l -> NoDup (setAdd x l).
Proof.
  intro D. unfold setAdd. destruct (existsb _ _) eqn:E; [exact D|].
  assert (N : ~ In x l).
  { intro H. apply existsb_eqb_In in H. congruence. }
  clear E. induction D as [|y r Ny Dr IH]; simpl; [repeat constructor; auto|].
  simpl in N. constructor; [|apply IH; tauto].
  rewrite in_app_iff. simpl. intuition.
Qed.

Lemma addFolders_spec files :
  forall acc,
    NoDup acc ->
    NoDup (addFolders files acc)
    /\ forall v, In v (addFolders files acc)
                 <-> In v acc
                     \/ exists f, In f files /\ name f = v /\ looksLikeFolder v = true.
Proof.
  unfold addFolders.
  induction files as [|f files IH]; intros acc D; simpl.
  - split; [exact D|]. intro v. split; [auto | intros [H|(f & [] & _)]; exact H].
  - set (acc' := if truthy (name f) && negb (includes "." (name f))
                 then setAdd (name f) acc else acc).
    assert (D' : NoDup acc').
    { unfold acc'. destruct (_ && _); [now apply setAdd_NoDup | exact D]. }
    destruct (IH acc' D') as [N I]. split; [exact N|].
    intro v. rewrite I. unfold acc'. split.
    + intros [H|(g & Hg & E & L)].
      * destruct (truthy (name f) && negb (includes "." (name f))) eqn:K.
        -- apply setAdd_In in H as [->|H]; [|now left].
           right. exists f. auto.
        -- now left.
      * right. exists g. auto.
    + intros [H|(g & [<-|Hg] & E & L)].
      * left. destruct (_ && _); [apply setAdd_In|]; auto.
      * left. subst v. unfold looksLikeFolder in L. rewrite L.
        apply setAdd_In. auto.
      * right. exists g. auto.
Qed.

Lemma collect_spec (replies : list ListReply) :
  forall acc,
    NoDup acc ->
    let venues := fold_left (fun acc r => addFolders (Spec.listed r) acc) replies acc in
    NoDup venues
    /\ forall v, In v venues
                 <-> In v acc
                     \/ exists r f, In r replies /\ In f (Spec.listed r)
                                    /\ name f = v /\ looksLikeFolder v = true.
Proof.
  induction replies as [|r replies IH]; intros acc D; cbv zeta; simpl.
  - split; [exact D|]. intro v. split; [auto | intros [H|(r & f & [] & _)]; exact H].
  - destruct (addFolders_spec (Spec.listed r) acc D) as [D' I'].
    destruct (IH _ D') as [N I]. cbv zeta in N, I. split; [exact N|].
    intro v. rewrite I, I'. split.
    + intros [[H|(f & Hf & E & L)]|(r' & f & Hr & Hf & E & L)];
        [now left | right; exists r, f; auto | right; exists r', f; auto].
    + intros [H|(r' & f & [<-|Hr] & Hf & E & L)];
        [now left; left | left; right; exists f; auto | right; exists r', f; auto].
Qed.

(** X22: when [GET /venues] succeeds, its list is in ascending order without
    repetition, [count] is its length, and it holds exactly the entry names
    without a period (and not empty) found in the buckets whose listing
    returned data. *)
Theorem getVenues_list
    (w : World) (b : Buckets) (t : Ticks) (venues : list string) (count : nat)
    (H : fst (getVenues w b t) = VenueList venues count) :
  Sorted ordered venues /\ NoDup venues /\ count = List.length venues
  /\ forall v,
       In v venues
       <-> exists r f, In r (Spec.listReplies w b "" t) /\ In f (Spec.listed r)
                       /\ name f = v /\ looksLikeFolder v = true.
Proof.
  rewrite getVenues_closed in H.
  destruct (existsb _ _); [discriminate|]. cbv zeta in H.
  injection H as <- <-.
  destruct (collect_spec (Spec.listReplies w b "" t) [] (NoDup_nil _)) as [N I].
  cbv zeta in N, I.
  split; [apply sort_sorted|]. split; [now apply sort_NoDup|]. split; [reflexivity|].
  intro v. rewrite sort_In, I. split; [intros [[]|K]; exact K | auto].
Qed.

Lemma getVenues_list_witness :
  fst (getVenues Sample.busy Sample.buckets Sample.start)
  = VenueList ["alpha"; "mid"; "zeta"] 3
  /\ Sorted ordered ["alpha"; "mid"; "zeta"]
  /\ NoDup ["alpha"; "mid"; "zeta"]
  /\ 3 = List.length ["alpha"; "mid"; "zeta"]
  /\ forall v,
       In v ["alpha"; "mid"; "zeta"]
       <-> exists r f,
             In r (Spec.listReplies Sample.busy Sample.buckets "" Sample.start)
             /\ In f (Spec.listed r) /\ name f = v /\ looksLikeFolder v = true.
Proof.
  split; [reflexivity|].
  exact (getVenues_list Sample.busy Sample.buckets Sample.start
           ["alpha"; "mid"; "zeta"] 3 eq_refl).
Defined.

End VenueList.

(** ** The upload routes *)

Section UploadRoute.
Import JS Shape Props World Config.

(** X26: an upload request reaches the store only when its token is the
    configured secret, the multipart parser did not fail, every file passes
    the size checks, the venue name is a string that is not empty and, on
    the photos route, the category is a string or absent: then the store is
    called once per file, and otherwise (also when a field arrived as an
    array) not at all. *)
Theorem uploadRoute_store_calls
    (w : World) (b : Buckets) (accessToken : option string) (maxFileSize : Z)
    (req : Auth.Request) (parsed : Routes.Parsed) (t : Ticks) :
  let uploads withCategory :=
    if Auth.optionalAuth req accessToken
    then admitted withCategory maxFileSize parsed else 0 in
  calls (snd (Routes.photosRoute w b accessToken maxFileSize req parsed t))
  = calls t + uploads true
  /\ calls (snd (Routes.menusRoute w b accessToken maxFileSize req parsed t))
     = calls t + uploads false
  /\ calls (snd (Routes.pricingRoute w b accessToken maxFileSize req parsed t))
     = calls t + uploads false.
Proof.
  cbv zeta. unfold Routes.photosRoute, Routes.menusRoute, Routes.pricingRoute,
    Routes.uploadRoute.
  pose proof (optionalAuth_next req accessToken) as A.
  destruct (Auth.authenticateToken req accessToken) as [|st e m].
  2:{ destruct (Auth.optionalAuth req accessToken);
        [destruct A as [A _]; discriminate (A eq_refl)|].
      cbn. lia. }
  rewrite (proj2 A eq_refl). clear A.
  destruct parsed as [e | body files]; [cbn; lia|].
  pose proof (validateFiles_next_iff maxFileSize files) as V.
  destruct (UploadMiddleware.validateFiles maxFileSize files)
    as [|status error message allowedTypes maxSize] eqn:E.
  - destruct (proj1 V eq_refl) as (fs & -> & Hne & Hok).
    unfold admitted. rewrite Hok. cbn [andb].
    unfold UploadFields.postPhotos, UploadFields.postMenus, UploadFields.postPricing,
      UploadFields.postPlain, bind, ret.
    destruct (Auth.truthyV (UploadFields.venueName body)); cbn [negb]; [|cbn; lia].
    pose proof (fields_uploadFilesToBucket w fs (PHOTOS b) (UploadFields.venueName body)
                  (UploadFields.category body) t) as (_ & C1 & _).
    pose proof (fields_uploadFilesToBucket w fs (MENUS b) (UploadFields.venueName body)
                  Auth.VUndefined t) as (_ & C2 & _).
    pose proof (fields_uploadFilesToBucket w fs (PRICING b) (UploadFields.venueName body)
                  Auth.VUndefined t) as (_ & C3 & _).
    destruct (UploadFields.uploadFilesToBucket w fs (PHOTOS b) _ _ t).
    destruct (UploadFields.uploadFilesToBucket w fs (MENUS b) _ _ t).
    destruct (UploadFields.uploadFilesToBucket w fs (PRICING b) _ _ t).
    cbn [fst snd] in *. auto.
  - assert (N : forall c, admitted c maxFileSize (Routes.ParseDone body files) = 0).
    { intro c. unfold admitted. destruct files as [fs|]; [|reflexivity].
      destruct (forallb (sizeOk maxFileSize) fs) eqn:F; [|reflexivity].
      destruct fs as [|f fs].
      - unfold reaching. cbn [List.length].
        destruct (_ && _); [|reflexivity]. now destruct (plainFields _ _).
      - assert (K : UploadMiddleware.Rejected status error message allowedTypes maxSize
                    = UploadMiddleware.Next).
        { apply V. exists (f :: fs). repeat split; auto. discriminate. }
        discriminate K. }
    rewrite !N. cbn. lia.
Qed.

End UploadRoute.

(** ** Files of a venue, deleting, and the route guards *)

Section VenueFiles.
Import JS Shape Props World Config Venues.

Lemma reportedFiles_spec w bucketName venueName r :
  Forall (fun i => looksLikeFile (infoName i) = true
                   /\ infoUrl i = getPublicUrl w bucketName (venueName ++ "/" ++ infoName i))
    (Spec.reportedFiles w bucketName venueName r).
Proof.
  unfold Spec.reportedFiles.
  induction (Spec.listed r) as [|f l IH]; simpl; [constructor|].
  destruct (truthy (name f) && includes "." (name f)) eqn:E; [|exact IH].
  constructor; [|exact IH]. split; [exact E | reflexivity].
Qed.

(** X23: when [GET /venues/:venueName/files] succeeds, it reports the three
    keys photos, menus and pricing in this order, also for a bucket whose
    listing failed; every reported entry has a period in its name and the
    public URL of venueName/name in one of the configured buckets; and
    [totalFiles] is the number of reported entries. *)
Theorem getVenueFiles_report
    (w : World) (b : Buckets) (venueName : string) (t : Ticks)
    (venue : string) (files : list (string * list FileInfo)) (total : nat)
    (H : fst (getVenueFiles w b venueName t) = VenueFiles venue files total) :
  venue = venueName
  /\ map fst files = ["photos"; "menus"; "pricing"]
  /\ total = list_sum (map (fun e => List.length (snd e)) files)
  /\ Forall
       (fun e =>
          Forall
            (fun i =>
               looksLikeFile (infoName i) = true
               /\ exists bucketName,
                    In bucketName (values b)
                    /\ infoUrl i
                       = getPublicUrl w bucketName (venueName ++ "/" ++ infoName i))
            (snd e))
       files.
Proof.
  rewrite getVenueFiles_closed in H.
  destruct (existsb _ _); [discriminate|]. cbv zeta in H.
  injection H as <- <- <-.
  split; [reflexivity|]. split; [reflexivity|]. split; [simpl; lia|].
  repeat constructor; cbn [snd];
    (eapply Forall_impl; [|apply reportedFiles_spec]);
    intros i [L U]; (split; [exact L|]); eexists; (split; [|exact U]);
    unfold values; simpl; auto.
Qed.

Lemma getVenueFiles_report_witness :
  fst (getVenueFiles Sample.busy Sample.buckets "oakview-manor" Sample.start)
  = VenueFiles "oakview-manor" Sample.busyFiles 3
  /\ map fst Sample.busyFiles = ["photos"; "menus"; "pricing"]
  /\ 3 = list_sum (map (fun e => List.length (snd e)) Sample.busyFiles)
  /\ Forall
       (fun e =>
          Forall
            (fun i =>
               looksLikeFile (infoName i) = true
               /\ exists bucketName,
                    In bucketName (values Sample.buckets)
                    /\ infoUrl i
                       = getPublicUrl Sample.busy bucketName
                           ("oakview-manor" ++ "/" ++ infoName i))
            (snd e))
       Sample.busyFiles.
Proof.
  split; [reflexivity|].
  exact (proj2 (getVenueFiles_report Sample.busy Sample.buckets "oakview-manor"
                  Sample.start "oakview-manor" Sample.busyFiles 3 eq_refl)).
Defined.

(** X24: the delete handler addresses [venueName/fileName] with the venue
    name as it stands in the URL, unsanitized: after a successful removal the
    reported path is the path an upload stored the object under exactly when
    [venueName] is the folder the upload derived. *)
Theorem delete_addresses_upload
    (w : World) (b : Buckets) (t : Ticks)
    (venue original category : string) (now : FileUtils.Date) (uuid : string)
    (venueName bucket : string)
    (B : existsb (String.eqb bucket) (values b) = true)
    (R : storageRemove w (calls t) bucket
           [venueName ++ "/"
              ++ FileUtils.generateFileName venue original category now uuid]
         = RemoveData) :
  let fileName := FileUtils.generateFileName venue original category now uuid in
  let stored := FileUtils.generateFolderPath venue category ++ "/" ++ fileName in
  exists removed,
    fst (deleteFile w b venueName bucket fileName t)
    = Deleted "File deleted successfully" venueName bucket fileName removed
    /\ (removed = stored <-> venueName = FileUtils.generateFolderPath venue category).
Proof.
  cbv zeta. unfold deleteFile, bind, ret, removeObjects. rewrite B. cbn [negb fst].
  rewrite R. eexists. split; [reflexivity|]. split.
  - apply app_inv_tail.
  - now intros ->.
Qed.

Lemma delete_addresses_upload_witness :
  exists removed,
    fst (deleteFile Sample.calm Sample.buckets "Oakview Manor" "menus"
           (FileUtils.generateFileName "Oakview Manor" "menu.pdf" "" Sample.noon
              Sample.uuidA) Sample.start)
    = Deleted "File deleted successfully" "Oakview Manor" "menus"
        (FileUtils.generateFileName "Oakview Manor" "menu.pdf" "" Sample.noon Sample.uuidA)
        removed
    /\ (removed
        = FileUtils.generateFolderPath "Oakview Manor" "" ++ "/"
            ++ FileUtils.generateFileName "Oakview Manor" "menu.pdf" "" Sample.noon
                 Sample.uuidA
        <-> "Oakview Manor" = FileUtils.generateFolderPath "Oakview Manor" "").
Proof.
  exact (delete_addresses_upload Sample.calm Sample.buckets Sample.start
           "Oakview Manor" "menu.pdf" "" Sample.noon Sample.uuidA
           "Oakview Manor" "menus" eq_refl eq_refl).
Defined.

(** X25: a delete request calls the store exactly once when its token is the
    configured secret and its bucket is one of the configured buckets, and
    not at all otherwise; it never reads the clock or draws an identifier. *)
Theorem deleteRoute_store_calls
    (w : World) (b : Buckets) (accessToken : option string) (req : Auth.Request)
    (venueName bucket fileName : string) (t : Ticks) :
  let t' := snd (Routes.deleteRoute w b accessToken req venueName bucket fileName t) in
  calls t'
  = calls t + (if Auth.optionalAuth req accessToken
                  && existsb (String.eqb bucket) (values b)
               then 1 else 0)
  /\ dates t' = dates t /\ uuids t' = uuids t.
Proof.
  cbv zeta. unfold Routes.deleteRoute.
  pose proof (optionalAuth_next req accessToken) as A.
  destruct (Auth.authenticateToken req accessToken) as [|st e m].
  - rewrite (proj2 A eq_refl). cbn [andb].
    unfold deleteFile, bind, ret, removeObjects.
    destruct (existsb _ _); cbn [negb snd calls dates uuids]; [|lia].
    destruct (storageRemove w _ _ _); cbn [snd calls dates uuids]; lia.
  - destruct (Auth.optionalAuth req accessToken);
      [destruct A as [A _]; discriminate (A eq_refl)|].
    cbn. lia.
Qed.

End VenueFiles.

(** ** Bucket configuration *)

Section Buckets.
Import JS Props Config.

(** X27: [validateBuckets] answers true exactly when the listing returned
    data in which every configured bucket name occurs; an error reply or an
    exception gives false. *)
Theorem validateBuckets_iff (reply : ListBucketsReply) (b : Buckets) :
  validateBuckets reply b = true
  <-> exists buckets,
        reply = BucketsData buckets
        /\ forall n, In n (values b) -> In n (map bucketName buckets).
Proof.
  destruct reply as [buckets|m|]; cbn [validateBuckets];
    try (split; [discriminate | intros (x & E & _); discriminate]).
  generalize (values b). intro required.
  induction required as [|r required IH].
  - split; [intros _; exists buckets; split; [reflexivity | intros n []] | reflexivity].
  - destruct (existsb (String.eqb r) (map bucketName buckets)) eqn:E; cbn [negb].
    + rewrite IH. apply existsb_eqb_In in E. split.
      * intros (x & Ex & H). exists x. split; [exact Ex|].
        injection Ex as <-. intros n [<-|Hn]; auto.
      * intros (x & Ex & H). exists x. split; [exact Ex|]. intros n Hn.
        apply H. now right.
    + split; [discriminate|]. intros (x & Ex & H). injection Ex as <-.
      assert (K : In r (map bucketName buckets)) by (apply H; now left).
      apply existsb_eqb_In in K. congruence.
Qed.

(** X28: the configured bucket names are never empty: an environment
    variable that is unset or empty gives the default name, and any other
    value is taken as it is. *)
Theorem BUCKETS_names (photosEnv menusEnv pricingEnv : option string) :
  let b := BUCKETS photosEnv menusEnv pricingEnv in
  Forall (fun n => n <> EmptyString) (values b)
  /\ PHOTOS b = match photosEnv with
                | Some (String c r) => String c r
                | _ => "photos"
                end
  /\ MENUS b = match menusEnv with
               | Some (String c r) => String c r
               | _ => "menus"
               end
  /\ PRICING b = match pricingEnv with
                 | Some (String c r) => String c r
                 | _ => "pricing"
                 end.
Proof.
  cbv zeta. unfold BUCKETS, values, orDefault. cbn [PHOTOS MENUS PRICING].
  destruct photosEnv as [[|? ?]|], menusEnv as [[|? ?]|], pricingEnv as [[|? ?]|];
    cbn [truthy]; (split; [repeat constructor; discriminate | repeat split]).
Qed.

End Buckets.

(** ** Order and distinctness of object names *)

Section NameOrder.
Import JS Shape Props FileUtils.

Lemma ascii_compare_refl c : Ascii.compare c c = Eq.
Proof. unfold Ascii.compare. apply N.compare_refl. Qed.

Lemma compare_app_head p x y : String.compare (p ++ x) (p ++ y) = String.compare x y.
Proof.
  induction p as [|c p IH]; simpl; [reflexivity|].
  now rewrite ascii_compare_refl.
Qed.

Lemma compare_app_length a a' x y :
  String.length a = String.length a' ->
  String.compare (a ++ x) (a' ++ y)
  = andThen (String.compare a a') (String.compare x y).
Proof.
  revert a'. induction a as [|c a IH]; intros [|d a'] L; simpl in *;
    try discriminate; [reflexivity|].
  destruct (Ascii.compare c d); [apply IH; lia | reflexivity | reflexivity].
Qed.

Lemma digit_compare n m :
  Ascii.compare (digitChar n) (digitChar m) = (n mod 10 ?= m mod 10)%Z.
Proof.
  unfold digitChar.
  destruct (digit_cases n) as [H|[H|[H|[H|[H|[H|[H|[H|[H|H]]]]]]]]];
    destruct (digit_cases m) as [K|[K|[K|[K|[K|[K|[K|[K|[K|K]]]]]]]]];
    rewrite H, K; reflexivity.
Qed.

Lemma split_compare n m :
  (0 <= n)%Z -> (0 <= m)%Z ->
  andThen (n / 10 ?= m / 10)%Z (n mod 10 ?= m mod 10)%Z = (n ?= m)%Z.
Proof.
  intros Hn Hm.
  pose proof (Z.div_mod n 10 ltac:(lia)) as En.
  pose proof (Z.div_mod m 10 ltac:(lia)) as Em.
  pose proof (Z.mod_pos_bound n 10 ltac:(lia)) as Bn.
  pose proof (Z.mod_pos_bound m 10 ltac:(lia)) as Bm.
  destruct (Z.compare_spec (n / 10) (m / 10)) as [E|L|G]; cbn [andThen].
  - destruct (Z.compare_spec (n mod 10) (m mod 10)); symmetry;
      [apply Z.compare_eq_iff | apply Z.compare_lt_iff | apply Z.compare_gt_iff]; lia.
  - symmetry. apply Z.compare_lt_iff. lia.
  - symmetry. apply Z.compare_gt_iff. lia.
Qed.

Lemma pad_compare k n m :
  (0 <= n < 10 ^ Z.of_nat k)%Z -> (0 <= m < 10 ^ Z.of_nat k)%Z ->
  String.compare (padDigits k n) (padDigits k m) = (n ?= m)%Z.
Proof.
  revert n m. induction k as [|k IH]; intros n m Hn Hm.
  - simpl in *. replace n with 0%Z by lia. replace m with 0%Z by lia. reflexivity.
  - rewrite Nat2Z.inj_succ, Z.pow_succ_r in Hn, Hm by lia.
    cbn [padDigits].
    rewrite compare_app_length by now rewrite !padDigits_length.
    rewrite IH.
    + cbn [String.compare]. rewrite digit_compare.
      rewrite <- (split_compare n m) by lia.
      now destruct (n mod 10 ?= m mod 10)%Z.
    + split; [apply Z.div_pos; lia | apply Z.div_lt_upper_bound; lia].
    + split; [apply Z.div_pos; lia | apply Z.div_lt_upper_bound; lia].
Qed.

Lemma field_compare k n m x y :
  (0 <= n < 10 ^ Z.of_nat k)%Z -> (0 <= m < 10 ^ Z.of_nat k)%Z ->
  String.compare (padDigits k n ++ x) (padDigits k m ++ y)
  = andThen (n ?= m)%Z (String.compare x y).
Proof.
  intros Hn Hm.
  rewrite compare_app_length by now rewrite !padDigits_length.
  now rewrite pad_compare.
Qed.

Lemma timestamp_compare a b :
  Spec.validDate a = true -> Spec.validDate b = true ->
  String.compare (timestampOf a) (timestampOf b) = compareSeconds a b.
Proof.
  intros Va Vb.
  rewrite (timestampOf_stamp a (validDate_year a Va)),
          (timestampOf_stamp b (validDate_year b Vb)).
  apply validDate_bounds in Va, Vb.
  unfold Spec.secondStamp, compareSeconds.
  rewrite field_compare by (simpl; lia). rewrite (compare_app_head "-").
  rewrite field_compare by (simpl; lia). rewrite (compare_app_head "-").
  rewrite field_compare by (simpl; lia). rewrite (compare_app_head "T").
  rewrite field_compare by (simpl; lia). rewrite (compare_app_head "-").
  rewrite field_compare by (simpl; lia). rewrite (compare_app_head "-").
  now rewrite pad_compare by (simpl; lia).
Qed.

(** X29: for instants with a four-digit year, timestamps compare as strings
    the way the instants compare up to the second; so, for one venue and
    category, the object name given at an earlier second sorts before the
    one given at a later second, whatever the original names and
    identifiers. *)
Theorem object_names_sort_by_time
    (venue category original1 original2 : string) (now1 now2 : Date)
    (uuid1 uuid2 : string)
    (V1 : Spec.validDate now1 = true) (V2 : Spec.validDate now2 = true) :
  String.compare (timestampOf now1) (timestampOf now2) = compareSeconds now1 now2
  /\ (compareSeconds now1 now2 <> Eq ->
      String.compare (generateFileName venue original1 category now1 uuid1)
                     (generateFileName venue original2 category now2 uuid2)
      = compareSeconds now1 now2).
Proof.
  pose proof (timestamp_compare now1 now2 V1 V2) as T.
  split; [exact T|]. intro N.
  rewrite !generateFileName_parts, compare_app_head.
  rewrite compare_app_length by now rewrite !timestampOf_length.
  rewrite T. now destruct (compareSeconds now1 now2).
Qed.

Lemma object_names_sort_by_time_witness :
  String.compare
    (generateFileName "Oakview Manor" "z.pdf" "" Sample.noon Sample.uuidB)
    (generateFileName "Oakview Manor" "a.pdf" ""
       (mkDate 2024 1 15 10 30 46 0) Sample.uuidA)
  = Lt.
Proof.
  exact (proj2 (object_names_sort_by_time "Oakview Manor" "" "z.pdf" "a.pdf"
                  Sample.noon (mkDate 2024 1 15 10 30 46 0) Sample.uuidB Sample.uuidA
                  eq_refl eq_refl)
           ltac:(discriminate)).
Defined.

(** X30: two object names of one venue and category whose identifiers differ
    in their first eight characters are different, also for different
    original names and instants. *)
Theorem distinct_identifiers_distinct_names
    (venue category original1 original2 : string) (now1 now2 : Date)
    (uuid1 uuid2 : string)
    (L1 : 8 <= String.length uuid1) (L2 : 8 <= String.length uuid2)
    (D : slice0 8 uuid1 <> slice0 8 uuid2) :
  generateFileName venue original1 category now1 uuid1
  <> generateFileName venue original2 category now2 uuid2.
Proof.
  rewrite !generateFileName_parts. intro E.
  apply app_inv_head in E.
  apply app_inj_length in E; [|now rewrite !timestampOf_length].
  destruct E as [_ E]. apply (app_inv_head "_") in E.
  apply app_inj_length in E; [|now rewrite !slice0_length].
  now destruct E.
Qed.

Lemma distinct_identifiers_distinct_names_witness :
  generateFileName "Oakview Manor" "a.pdf" "" Sample.noon Sample.uuidA
  <> generateFileName "Oakview Manor" "b.png" "" Sample.noonAndHalf Sample.uuidB.
Proof.
  apply (distinct_identifiers_distinct_names "Oakview Manor" "" "a.pdf" "b.png"
           Sample.noon Sample.noonAndHalf Sample.uuidA Sample.uuidB);
    [simpl; lia | simpl; lia | discriminate].
Defined.

End NameOrder.
